(** * Schema projection of [useCrudSchemas] and the helpers of [utils/index]

    A shallow embedding of [src/hooks/web/useCrudSchemas.ts] and of
    [src/utils/index.ts].  JavaScript objects are finite maps from property
    names to values; the unified schema is a rose tree of such objects; the
    search projector runs in a small state-and-exception monad (it translates
    the dictionary records in place and may raise a [TypeError]); a deferred
    api task is a transformer of the [searchSchema] list it patches.

    Objects are values here.  The list [searchSchema] is the one store that
    is shared between the assembly and the tasks, and it is threaded
    explicitly, as is the dictionary.  Sharing of one object between two
    places of the input (a [componentProps] object that a search block
    supplies is the very object its record carries) is not represented: each
    node, block and record owns its parts, and the statements below speak of
    the keys that such sharing cannot reach. *)

From Stdlib Require Import ZArith QArith List Ascii String Lia DecimalString.
From stdpp Require Import gmap strings list fin_maps.

Set Warnings "-register-all".

Local Open Scope string_scope.
Local Open Scope Z_scope.

(** ** JavaScript values *)

Module JS.

(** Plain data as the engine sees it.  [VFun] is an opaque function reference
    (the [api] fetchers); objects carry their own properties only. *)
Inductive value : Type :=
  | VUndef
  | VNull
  | VBool (b : bool)
  | VNum (n : Z)
  | VStr (s : string)
  | VArr (l : list value)
  | VObj (o : gmap string value)
  | VFun (id : nat).

Abbreviation obj := (gmap string value).

(** [o.k]: an absent property reads as [undefined]. *)
Definition get (o : obj) (k : string) : value :=
  match o !! k with
  | Some v => v
  | None => VUndef
  end.

(** ToBoolean. *)
Definition truthy (v : value) : bool :=
  match v with
  | VUndef | VNull => false
  | VBool b => b
  | VNum n => negb (n =? 0)
  | VStr s => negb (String.eqb s "")
  | VArr _ | VObj _ | VFun _ => true
  end.

(** [v !== false]. *)
Definition not_false (v : value) : bool :=
  match v with
  | VBool false => false
  | _ => true
  end.

(** [a || b]. *)
Definition or_else (a b : value) : value := if truthy a then a else b.

(** [a && b]. *)
Definition and_then (a b : value) : value := if truthy a then b else a.

(** [v?.k]: short-circuits on [undefined] and [null]; a primitive has no own
    property of the names read here. *)
Definition opt_prop (v : value) (k : string) : value :=
  match v with
  | VObj o => get o k
  | _ => VUndef
  end.

(** [{...v}]: the own properties of an object; [undefined], [null], numbers,
    booleans and functions spread to nothing.  (The view blocks are typed as
    object types in [CrudSchema].) *)
Definition spread (v : value) : obj :=
  match v with
  | VObj o => o
  | _ => ∅
  end.

(** [a === b] on primitives: same type and same value.  [field] is typed
    [string]; reference values are compared by identity in JavaScript, which
    a value cannot express, so they are never reported equal here. *)
Definition strict_eq (a b : value) : bool :=
  match a, b with
  | VUndef, VUndef => true
  | VNull, VNull => true
  | VBool x, VBool y => Bool.eqb x y
  | VNum x, VNum y => x =? y
  | VStr x, VStr y => String.eqb x y
  | _, _ => false
  end.

Definition is_prim (v : value) : bool :=
  match v with
  | VUndef | VNull | VBool _ | VNum _ | VStr _ => true
  | _ => false
  end.

Definition is_obj (v : value) : bool :=
  match v with
  | VObj _ => true
  | _ => false
  end.

End JS.
Export JS.

(** ** Exceptions and the state monad of the projectors *)

Inductive error : Type :=
  | TypeError.

Inductive result (A : Type) : Type :=
  | Ok (a : A)
  | Err (e : error).
Arguments Ok {A} a.
Arguments Err {A} e.

Definition M (S A : Type) : Type := S → result (A * S).

Definition ret {S A} (a : A) : M S A := fun s => Ok (a, s).

Definition bind {S A B} (m : M S A) (f : A → M S B) : M S B :=
  fun s =>
    match m s with
    | Ok (a, s') => f a s'
    | Err e => Err e
    end.

Definition throw {S A} (e : error) : M S A := fun _ => Err e.

Definition gets {S A} (f : S → A) : M S A := fun s => Ok (f s, s).

Definition modify {S} (f : S → S) : M S unit := fun s => Ok (tt, f s).

Notation "'let*' x ':=' m 'in' k" := (bind m (fun x => k))
  (at level 10, x name, m at level 99, k at level 200).
Notation "m ;;; k" := (bind m (fun _ => k))
  (at level 100, right associativity).

(** [for (const x of l) f(x)] *)
Fixpoint forEach {S A} (f : A → M S unit) (l : list A) : M S unit :=
  match l with
  | [] => ret tt
  | x :: r => f x ;;; forEach f r
  end.

(** ** The option-list translator, [filterOptions] *)

Section Translator.

(** The i18n function [t] of [useI18n]: an external, total collaborator. *)
Variable t : value → value.

(** The body of the [map] callback on one record: it writes the property
    spelled [labelField] (a literal key, not the key the argument names) when
    a label field is supplied, and [label] otherwise. *)
Definition translate_record (labelField : value) (v : obj) : obj :=
  if truthy labelField
  then <["labelField" := t (get v "labelField")]> v
  else <["label" := t (get v "label")]> v.

Fixpoint translate_all (labelField : value) (l : list value)
  : result (list value) :=
  match l with
  | [] => Ok []
  | VObj v :: r =>
      match translate_all labelField r with
      | Ok r' => Ok (VObj (translate_record labelField v) :: r')
      | Err e => Err e
      end
  | _ :: _ => Err TypeError
  end.

(** [options.map(...)]: only an array has [map]; a record that is not an
    object cannot be written to. *)
Definition filterOptions (options labelField : value) : result value :=
  match options with
  | VArr l =>
      match translate_all labelField l with
      | Ok l' => Ok (VArr l')
      | Err e => Err e
      end
  | _ => Err TypeError
  end.

End Translator.

(** ** The unified schema tree, [CrudSchema] *)

(** A node is its own properties ([field], [label], the four view blocks and
    any passthrough key) together with the optional [children] array.  The
    tree is a value: every node owns its blocks. *)
Inductive CrudSchema : Type :=
  | Schema (props : obj) (children : option (list CrudSchema)).

Definition props (n : CrudSchema) : obj :=
  match n with Schema p _ => p end.

Definition children (n : CrudSchema) : option (list CrudSchema) :=
  match n with Schema _ c => c end.

(** The tree-shaped output of the table projector, [TableColumn]. *)
Inductive TableColumn : Type :=
  | Column (cprops : obj) (cchildren : option (list TableColumn)).

Definition cprops (c : TableColumn) : obj :=
  match c with Column p _ => p end.

Definition cchildren (c : TableColumn) : option (list TableColumn) :=
  match c with Column _ l => l end.

(** ** Tree utilities of [@/utils/tree] *)

Module Tree.

(** Modelled from the spec: [eachTree] lives in [@/utils/tree], which is not
    part of the sources at hand.  Spec 4.1, Visit: depth-first, pre-order,
    the visitor is invoked on every node, intermediate or leaf, and
    [children] is traversed recursively whatever the visitor did. *)
Fixpoint eachNode {S} (callBack : CrudSchema → M S unit) (element : CrudSchema)
  : M S unit :=
  match element with
  | Schema _ ch =>
      callBack element ;;;
      match ch with
      | Some c => forEach (eachNode callBack) c
      | None => ret tt
      end
  end.

(** Modelled from the spec: [eachTree] on a forest visits its trees from left
    to right (spec 4.1, Visit). *)
Definition eachTree {S} (treeDatas : list CrudSchema)
    (callBack : CrudSchema → M S unit) : M S unit :=
  forEach (eachNode callBack) treeDatas.

(** Modelled from the spec: [treeMap] lives in [@/utils/tree].  Spec 4.1,
    Map: a tree of the same shape; the transform may yield nothing, in which
    case the node's content is dropped, and the mapped children are
    reattached onto whatever the transform produced. *)
Fixpoint treeMapEach (conversion : CrudSchema → option obj) (data : CrudSchema)
  : TableColumn :=
  match data with
  | Schema _ ch =>
      Column (default ∅ (conversion data))
             (option_map (map (treeMapEach conversion)) ch)
  end.

(** Modelled from the spec: [treeMap] maps every tree of the forest (spec
    4.1, Map). *)
Definition treeMap (treeData : list CrudSchema)
    (conversion : CrudSchema → option obj) : list TableColumn :=
  map (treeMapEach conversion) treeData.

(** Modelled from the spec: the list step of [filter], which keeps the nodes
    the predicate accepts (spec 4.1, Filter).  The predicate may write to the
    node it inspects, so it hands back the node along with its verdict. *)
Definition keep (func : TableColumn → TableColumn * bool) (l : list TableColumn)
  : list TableColumn :=
  omap (fun node => let '(node', ok) := func node in
                    if ok then Some node' else None) l.

(** Modelled from the spec: an empty children list is removed with its key
    (spec 4.1, Filter). *)
Definition strip_empty (l : list TableColumn) : option (list TableColumn) :=
  match l with
  | [] => None
  | _ :: _ => Some l
  end.

(** Modelled from the spec: [filter] lives in [@/utils/tree].  Spec 4.1,
    Filter: post-order; the children are filtered first, a child is kept only
    if the predicate holds of it, and a node whose resulting children list is
    empty loses its [children] key. *)
Fixpoint filterNode (func : TableColumn → TableColumn * bool) (node : TableColumn)
  : TableColumn :=
  match node with
  | Column p ch =>
      Column p match ch with
               | Some l => strip_empty (keep func (map (filterNode func) l))
               | None => None
               end
  end.

(** Modelled from the spec: [filter] on a forest filters every tree, then
    the top-level list itself (spec 4.1, Filter). *)
Definition filter (tree : list TableColumn)
    (func : TableColumn → TableColumn * bool) : list TableColumn :=
  keep func (map (filterNode func) tree).

End Tree.

(** ** The projection engine, [useCrudSchemas] *)

(** [dictStore.getDictObj[name]]; [dictName] is typed [string]. *)
Definition index_by (o : obj) (name : value) : value :=
  match name with
  | VStr s => get o s
  | _ => VUndef
  end.

(** [v.k = x]: writing a property of [undefined], [null] or a primitive
    raises; [componentProps] is typed [Recordable]. *)
Definition set_prop (v : value) (k : string) (x : value) : result value :=
  match v with
  | VObj o => Ok (VObj (<[k := x]> o))
  | _ => Err TypeError
  end.

(** [v.k]: reading a property of [undefined] or [null] raises. *)
Definition prop (v : value) (k : string) : result value :=
  match v with
  | VUndef | VNull => Err TypeError
  | _ => Ok (opt_prop v k)
  end.

Definition lift {S A} (r : result A) : M S A :=
  fun s => match r with
           | Ok a => Ok (a, s)
           | Err e => Err e
           end.

(** A deferred task is the closure pushed on [searchRequestTask]; all it
    captures is [searchSchemaItem], the record that ends up at this position
    of [searchSchema]. *)
Record Task : Type := { scheduler : nat }.

(** What [filterSearchSchema] reads and writes while it visits the tree. *)
Record SearchState : Type := {
  getDictObj : obj;
  searchSchema_acc : list obj;
  searchRequestTask : list Task
}.

Record AllSchemas : Type := {
  searchSchema : list obj;
  tableColumns : list TableColumn;
  formSchema : list obj;
  detailSchema : list obj
}.

Section Engine.

Variable t : value → value.

(** [searchSchema.push(item)] *)
Definition push_search (item : obj) : M SearchState unit :=
  modify (fun s => {| getDictObj := getDictObj s;
                      searchSchema_acc := searchSchema_acc s ++ [item];
                      searchRequestTask := searchRequestTask s |}).

(** [searchRequestTask.push(async () => ...)] for the record about to be
    pushed. *)
Definition push_task : M SearchState unit :=
  modify (fun s => {| getDictObj := getDictObj s;
                      searchSchema_acc := searchSchema_acc s;
                      searchRequestTask :=
                        searchRequestTask s
                          ++ [{| scheduler := length (searchSchema_acc s) |}] |}).

(** The records of a dictionary entry are translated in place. *)
Definition store_dict (name opts : value) : M SearchState unit :=
  modify (fun s => {| getDictObj := match name with
                                    | VStr d => <[d := opts]> (getDictObj s)
                                    | _ => getDictObj s
                                    end;
                      searchSchema_acc := searchSchema_acc s;
                      searchRequestTask := searchRequestTask s |}).

(** The object literal of lines 92-99: defaults, then the search block, then
    the node's identity. *)
Definition searchSchemaItem (schemaItem : CrudSchema) : obj :=
  let search := get (props schemaItem) "search" in
  <["label" := get (props schemaItem) "label"]>
    (<["field" := get (props schemaItem) "field"]>
       (spread search
          ∪ <["component" := or_else (opt_prop search "component") (VStr "input")]>
              {["componentProps" := VObj ∅]})).

(** Lines 101-120: dictionary enrichment, or scheduling of the api task. *)
Definition enrich (item : obj) : M SearchState obj :=
  if truthy (get item "dictName") then
    let* dictArr := gets (fun s => index_by (getDictObj s) (get item "dictName")) in
    let* opts := lift (filterOptions t dictArr VUndef) in
    store_dict (get item "dictName") opts ;;;
    let* cp := lift (set_prop (get item "componentProps") "options" opts) in
    ret (<["componentProps" := cp]> item)
  else if truthy (get item "api") then
    push_task ;;; ret item
  else ret item.

Definition search_show (schemaItem : CrudSchema) : bool :=
  truthy (opt_prop (get (props schemaItem) "search") "show").

(** The [eachTree] callback of [filterSearchSchema]. *)
Definition searchVisitor (schemaItem : CrudSchema) : M SearchState unit :=
  if search_show schemaItem then
    let* item := enrich (searchSchemaItem schemaItem) in
    push_search (delete "dictName" (delete "show" item))
  else ret tt.

(** [filterSearchSchema]: the assembled list, the tasks it started (each is
    invoked once, after the traversal, and runs up to its [await]), and the
    dictionary as the translation left it. *)
Definition filterSearchSchema (crudSchema : list CrudSchema) (dict : obj)
  : result (list obj * list Task * obj) :=
  match Tree.eachTree crudSchema searchVisitor
          {| getDictObj := dict; searchSchema_acc := []; searchRequestTask := [] |} with
  | Ok (_, s) => Ok (searchSchema_acc s, searchRequestTask s, getDictObj s)
  | Err e => Err e
  end.

(** The [conversion] of [filterTableSchema]: the table block first, the whole
    node over it. *)
Definition table_show (schema : CrudSchema) : bool :=
  not_false (opt_prop (get (props schema) "table") "show").

Definition tableItem (schema : CrudSchema) : obj :=
  props schema ∪ spread (get (props schema) "table").

Definition conversion (schema : CrudSchema) : option obj :=
  if table_show schema then Some (tableItem schema) else None.

(** The predicate of the second pass: it deletes a [children] key that holds
    [undefined], and keeps the nodes with a truthy [field]. *)
Definition hasField (data : TableColumn) : TableColumn * bool :=
  (match cchildren data with
   | None => Column (cprops data) None
   | Some _ => data
   end,
   truthy (get (cprops data) "field")).

Definition filterTableSchema (curdSchema : list CrudSchema) : list TableColumn :=
  Tree.filter (Tree.treeMap curdSchema conversion) hasField.

(** [filterFormSchema] *)
Definition form_show (schemaItem : CrudSchema) : bool :=
  not_false (opt_prop (get (props schemaItem) "form") "show").

Definition formSchemaItem (schemaItem : CrudSchema) : obj :=
  let form := get (props schemaItem) "form" in
  <["label" := get (props schemaItem) "label"]>
    (<["field" := get (props schemaItem) "field"]>
       (spread form
          ∪ {["component" :=
                or_else (and_then form (opt_prop form "component")) (VStr "Input")]})).

Definition formVisitor (schemaItem : CrudSchema) : M (list obj) unit :=
  if form_show schemaItem then
    modify (fun formSchema : list obj =>
              (formSchema ++ [delete "show" (formSchemaItem schemaItem)])%list)
  else ret tt.

Definition filterFormSchema (curdSchemas : list CrudSchema) : result (list obj) :=
  match Tree.eachTree curdSchemas formVisitor [] with
  | Ok (_, formSchema) => Ok formSchema
  | Err e => Err e
  end.

(** [filterDescriptionsSchema] *)
Definition detail_show (schemaItem : CrudSchema) : bool :=
  not_false (opt_prop (get (props schemaItem) "detail") "show").

Definition descriptionsSchemaItem (schemaItem : CrudSchema) : obj :=
  <["label" := get (props schemaItem) "label"]>
    (<["field" := get (props schemaItem) "field"]>
       (spread (get (props schemaItem) "detail"))).

Definition descriptionsVisitor (schemaItem : CrudSchema) : M (list obj) unit :=
  if detail_show schemaItem then
    modify (fun descriptionsSchema : list obj =>
              (descriptionsSchema
                 ++ [delete "show" (descriptionsSchemaItem schemaItem)])%list)
  else ret tt.

Definition filterDescriptionsSchema (curdSchema : list CrudSchema)
  : result (list obj) :=
  match Tree.eachTree curdSchema descriptionsVisitor [] with
  | Ok (_, descriptionsSchema) => Ok descriptionsSchema
  | Err e => Err e
  end.

(** [useCrudSchemas]: the four projections in source order; an exception of
    one aborts the call.  Besides the aggregate it hands back the started
    tasks and the dictionary store.  The table, form and detail projectors
    read the tree as it was supplied. *)
Definition useCrudSchemas (curdSchema : list CrudSchema) (dict : obj)
  : result (AllSchemas * list Task * obj) :=
  match filterSearchSchema curdSchema dict with
  | Err e => Err e
  | Ok (search, tasks, dict') =>
      let table := filterTableSchema curdSchema in
      match filterFormSchema curdSchema with
      | Err e => Err e
      | Ok form =>
          match filterDescriptionsSchema curdSchema with
          | Err e => Err e
          | Ok detail =>
              Ok ({| searchSchema := search; tableColumns := table;
                     formSchema := form; detailSchema := detail |},
                  tasks, dict')
          end
      end
  end.

End Engine.

(** ** [findIndex] of [utils/index] *)

Section FindIndex.

Context {A : Type}.

(** [Array.prototype.findIndex]: the first index whose element satisfies the
    callback, [-1] when there is none. *)
Fixpoint native_findIndex (fn : A → bool) (ary : list A) (i : Z) : Z :=
  match ary with
  | [] => -1
  | item :: rest => if fn item then i else native_findIndex fn rest (i + 1)
  end.

(** The fallback: [ary.some] stops at the first callback that returns a
    truthy value, and the callback has stored that position in [index]. *)
Fixpoint some_findIndex (fn : A → bool) (ary : list A) (i index : Z) : Z :=
  match ary with
  | [] => index
  | item :: rest => if fn item then i else some_findIndex fn rest (i + 1) index
  end.

(** [has_findIndex] says whether the array carries a [findIndex] method. *)
Definition findIndex (has_findIndex : bool) (ary : list A) (fn : A → bool) : Z :=
  if has_findIndex then native_findIndex fn ary 0
  else some_findIndex fn ary 0 (-1).

(** [j] is the first position of [ary] whose element satisfies [fn]. *)
Definition first_match (fn : A → bool) (ary : list A) (j : nat) (x : A) : Prop :=
  ary !! j = Some x ∧ fn x = true
  ∧ ∀ k y, (k < j)%nat → ary !! k = Some y → fn y = false.

End FindIndex.

(** ** The deferred api tasks *)

(** How the promise returned by [api()] settles. *)
Inductive Outcome : Type :=
  | Rejects
  | Resolves (res : value).

Definition rbind {A B} (r : result A) (f : A → result B) : result B :=
  match r with
  | Ok a => f a
  | Err e => Err e
  end.

Notation "'let?' x ':=' r 'in' k" := (rbind r (fun x => k))
  (at level 10, x name, r at level 99, k at level 200).

Section Deferred.

Variable t : value → value.
Variable has_findIndex : bool.

(** The continuation of a task after its [await] (lines 108-118), as a
    transformer of the list held in [allSchemas.searchSchema].  The closure's
    [searchSchemaItem] is the record at [scheduler tk]; the record that is
    written is the one [findIndex] returns. *)
Definition patch (searchSchema : list obj) (tk : Task) (res : value)
  : result (list obj) :=
  if truthy res then
    match searchSchema !! scheduler tk with
    | None => Ok searchSchema
    | Some item =>
        let index :=
          findIndex has_findIndex searchSchema
            (fun v => strict_eq (get v "field") (get item "field")) in
        if index =? -1 then Ok searchSchema
        else
          match searchSchema !! Z.to_nat index with
          | None => Ok searchSchema
          | Some target =>
              let? data := prop res "data" in
              let? alias := prop (get item "componentProps") "optionsAlias" in
              let? opts := filterOptions t data (opt_prop alias "labelField") in
              let? cp := set_prop (get target "componentProps") "options" opts in
              Ok (<[Z.to_nat index := <["componentProps" := cp]> target]>
                    searchSchema)
          end
    end
  else Ok searchSchema.

(** One task from the [await] on.  Nothing awaits the promise of the task,
    so a rejection of [api()] or an exception in the continuation ends that
    task and reaches no caller. *)
Definition run_task (searchSchema : list obj) (tk : Task) (o : Outcome)
  : list obj :=
  match o with
  | Rejects => searchSchema
  | Resolves res =>
      match patch searchSchema tk res with
      | Ok searchSchema' => searchSchema'
      | Err _ => searchSchema
      end
  end.

End Deferred.

(** ** [toAnyString] of [utils/index] *)

Module AnyString.

Definition template : string := "xxxxx-xxxxx-4xxxx-yxxxx-xxxxx".

(** [x | 0] on a number: truncate, then wrap to a signed 32-bit integer. *)
Definition to_int32 (z : Z) : Z := (z + 2 ^ 31) mod 2 ^ 32 - 2 ^ 31.

Definition trunc (x : Q) : Z := Z.quot (Qnum x) (Z.pos (Qden x)).

(** [Number.prototype.toString()] without a radix, on an integer: decimal. *)
Definition toString (v : Z) : string := NilZero.string_of_int (Z.to_int v).

Section Random.

(** [random k] is what the [k]-th call of [Math.random()] returns: a double,
    hence a rational, and its product with 16 is exact. *)
Variable random : nat → Q.

(** The callback of [replace] on the match [c], at the [k]-th draw. *)
Definition replacer (c : ascii) (k : nat) : string :=
  let r := Z.lor (to_int32 (trunc (random k * 16)%Q)) 0 in
  let v := if Ascii.eqb c "x" then r else Z.lor (Z.land r 3) 8 in
  toString v.

(** [s.replace(/[xy]/g, ...)], left to right, one draw per match. *)
Fixpoint replace_xy (s : string) (k : nat) : string :=
  match s with
  | EmptyString => EmptyString
  | String c rest =>
      if (Ascii.eqb c "x" || Ascii.eqb c "y")%bool
      then replacer c k ++ replace_xy rest (S k)
      else String c (replace_xy rest k)
  end.

Definition toAnyString : string := replace_xy template 0.

End Random.

End AnyString.

(** ** Reference notions used by the statements *)

(** Pre-order listing of a forest: a node, then its subtrees left to right. *)
Fixpoint preorder_node (n : CrudSchema) : list CrudSchema :=
  match n with
  | Schema _ ch =>
      n :: match ch with
           | Some c => flat_map preorder_node c
           | None => []
           end
  end.

Definition preorder (tree : list CrudSchema) : list CrudSchema :=
  flat_map preorder_node tree.

(** Pre-order listing of the records of a column forest. *)
Fixpoint flatten_column (c : TableColumn) : list obj :=
  match c with
  | Column p ch =>
      p :: match ch with
           | Some l => flat_map flatten_column l
           | None => []
           end
  end.

Definition flatten (cols : list TableColumn) : list obj :=
  flat_map flatten_column cols.

(** A node passes both passes of the table projector: it is not hidden and
    its merged record has a truthy [field]. *)
Definition table_kept (n : CrudSchema) : bool :=
  table_show n && truthy (get (tableItem n) "field").

(** [exposed tree n]: [n] occurs in [tree] and it and all its ancestors pass
    the table projector. *)
Inductive exposed : list CrudSchema → CrudSchema → Prop :=
  | exposed_here tree n :
      In n tree → table_kept n = true → exposed tree n
  | exposed_below tree parent c n :
      In parent tree → table_kept parent = true →
      children parent = Some c → exposed c n → exposed tree n.

(** The nodes the table projector keeps, in pre-order. *)
Fixpoint table_sources_node (n : CrudSchema) : list CrudSchema :=
  match n with
  | Schema _ ch =>
      if table_kept n
      then n :: match ch with
                | Some c => flat_map table_sources_node c
                | None => []
                end
      else []
  end.

Definition table_sources (tree : list CrudSchema) : list CrudSchema :=
  flat_map table_sources_node tree.

(** [r] is the search record of node [n]: the merged record without the
    internal keys, with whatever [componentProps] the enrichment left. *)
Definition search_record_of (n : CrudSchema) (r : obj) : Prop :=
  ∃ cp : value,
    r = <["componentProps" := cp]>
          (delete "dictName" (delete "show" (searchSchemaItem n))).

(** Nested induction over schema trees. *)
Definition Forall_children (P : CrudSchema → Prop)
    (ch : option (list CrudSchema)) : Prop :=
  match ch with
  | Some c => Forall P c
  | None => True
  end.

Fixpoint CrudSchema_forest_ind (P : CrudSchema → Prop)
    (step : ∀ p ch, Forall_children P ch → P (Schema p ch))
    (n : CrudSchema) : P n :=
  match n with
  | Schema p ch =>
      step p ch
        match ch return Forall_children P ch with
        | Some c =>
            (fix all (l : list CrudSchema) : Forall P l :=
               match l with
               | [] => @List.Forall_nil _ P
               | x :: r =>
                   @List.Forall_cons _ P x r
                     (CrudSchema_forest_ind P step x) (all r)
               end) c
        | None => I
        end
  end.

(** A list of option records, as a dictionary entry or a fetch delivers it. *)
Definition is_option_list (v : value) : bool :=
  match v with
  | VArr l => forallb is_obj l
  | _ => false
  end.

(** A shown node with a [dictName] needs its dictionary entry to be a list of
    records, and a [componentProps] that can be written to. *)
Definition dict_ready (dict : obj) (n : CrudSchema) : bool :=
  let item := searchSchemaItem n in
  negb (search_show n)
  || negb (truthy (get item "dictName"))
  || (is_option_list (index_by dict (get item "dictName"))
      && is_obj (get item "componentProps")).

(** What the two passes leave of one node: nothing, or one column. *)
Definition project_node (n : CrudSchema) : list TableColumn :=
  Tree.keep hasField [Tree.filterNode hasField (Tree.treeMapEach conversion n)].

(** The fetch settled without a result: the promise rejected, or resolved
    with a falsy value. *)
Definition no_result (o : Outcome) : bool :=
  match o with
  | Rejects => true
  | Resolves res => negb (truthy res)
  end.

(** [r] carries the [field] and the [label] of node [n]. *)
Definition keeps_identity (n : CrudSchema) (r : obj) : Prop :=
  get r "field" = get (props n) "field" ∧ get r "label" = get (props n) "label".

(** The types of the entries a task relies on: [componentProps] is an object
    and [field] a primitive, in a record and in the node it is built from. *)
Definition record_typed (r : obj) : bool :=
  is_obj (get r "componentProps") && is_prim (get r "field").

Definition search_typed (n : CrudSchema) : bool :=
  record_typed (searchSchemaItem n).

(** The invariant of the traversal: typed records, and tasks that point
    into the list. *)
Definition state_ok (s : SearchState) : Prop :=
  Forall (fun r => record_typed r = true) (searchSchema_acc s)
  ∧ Forall (fun tk => (scheduler tk < length (searchSchema_acc s))%nat)
      (searchRequestTask s).

(** ** Sample inputs *)

Module Samples.

Definition upper_char (c : ascii) : ascii :=
  let n := nat_of_ascii c in
  if ((97 <=? n) && (n <=? 122))%nat then ascii_of_nat (n - 32) else c.

(** [s.toUpperCase()] on ASCII text. *)
Fixpoint toUpperCase (s : string) : string :=
  match s with
  | EmptyString => EmptyString
  | String c r => String (upper_char c) (toUpperCase r)
  end.

(** The translator [Translate(s) = s.toUpperCase()]; it is only ever applied
    to strings below. *)
Definition upper_t (v : value) : value :=
  match v with
  | VStr s => VStr (toUpperCase s)
  | _ => v
  end.

Definition object (l : list (string * value)) : obj := list_to_map l.

(** [{field:"name", label:"Name", search:{show:true}, table:{}, form:{},
    detail:{}}] *)
Definition name_node : CrudSchema :=
  Schema (object [("field", VStr "name"); ("label", VStr "Name");
                  ("search", VObj (object [("show", VBool true)]));
                  ("table", VObj ∅); ("form", VObj ∅); ("detail", VObj ∅)])
         None.

(** [{field:"status", label:"Status", search:{show:true, dictName:"status"}}] *)
Definition status_node : CrudSchema :=
  Schema (object [("field", VStr "status"); ("label", VStr "Status");
                  ("search", VObj (object [("show", VBool true);
                                           ("dictName", VStr "status")]))])
         None.

(** [{field:"owner", label:"Owner", search:{show:true, api: fetchOwners,
    componentProps:{optionsAlias:{labelField:"name"}}}}] *)
Definition owner_node : CrudSchema :=
  Schema (object [("field", VStr "owner"); ("label", VStr "Owner");
                  ("search",
                   VObj (object
                     [("show", VBool true); ("api", VFun 0);
                      ("componentProps",
                       VObj (object
                         [("optionsAlias",
                           VObj (object [("labelField", VStr "name")]))]))]))])
         None.

(** A group that is hidden from search, form and detail, with two children. *)
Definition group_node : CrudSchema :=
  Schema (object [("field", VStr "group"); ("label", VStr "Group");
                  ("search", VObj (object [("show", VBool false)]));
                  ("form", VObj (object [("show", VBool false)]));
                  ("detail", VObj (object [("show", VBool false)]))])
         (Some [status_node; owner_node]).

Definition sample_tree : list CrudSchema := [name_node; group_node].

(** [{status: [{value:1, label:"on"}, {value:0, label:"off"}]}] *)
Definition sample_dict : obj :=
  object [("status",
           VArr [VObj (object [("value", VNum 1); ("label", VStr "on")]);
                 VObj (object [("value", VNum 0); ("label", VStr "off")])])].

(** The dictionary path with a label alias:
    [{field:"kind", label:"Kind", search:{show:true, dictName:"kinds",
      componentProps:{optionsAlias:{labelField:"name"}}}}] *)
Definition alias_node : CrudSchema :=
  Schema (object [("field", VStr "kind"); ("label", VStr "Kind");
                  ("search",
                   VObj (object
                     [("show", VBool true); ("dictName", VStr "kinds");
                      ("componentProps",
                       VObj (object
                         [("optionsAlias",
                           VObj (object [("labelField", VStr "name")]))]))]))])
         None.

(** [{kinds: [{value:1, label:"a"}]}] *)
Definition kinds_dict : obj :=
  object [("kinds", VArr [VObj (object [("value", VNum 1); ("label", VStr "a")])])].

(** A hidden parent over a child that declares nothing about the table:
    [{field:"p", table:{show:false}, children:[{field:"c"}]}] *)
Definition plain_child : CrudSchema :=
  Schema (object [("field", VStr "c")]) None.

Definition hidden_parent : CrudSchema :=
  Schema (object [("field", VStr "p");
                  ("table", VObj (object [("show", VBool false)]))])
         (Some [plain_child]).

(** A label given in the table block only:
    [{field:"id", table:{label:"ID"}}] *)
Definition id_node : CrudSchema :=
  Schema (object [("field", VStr "id");
                  ("table", VObj (object [("label", VStr "ID")]))])
         None.

(** The run of the engine on [sample_tree], and its three results. *)
Definition sample_run : result (AllSchemas * list Task * obj) :=
  useCrudSchemas upper_t sample_tree sample_dict.

Definition sample_all : AllSchemas :=
  match sample_run with
  | Ok (all, _, _) => all
  | Err _ => {| searchSchema := []; tableColumns := [];
                formSchema := []; detailSchema := [] |}
  end.

Definition sample_tasks : list Task :=
  match sample_run with
  | Ok (_, tasks, _) => tasks
  | Err _ => []
  end.

Definition sample_dict_after : obj :=
  match sample_run with
  | Ok (_, _, dict') => dict'
  | Err _ => ∅
  end.

(** The search record of [owner_node], third in [searchSchema]. *)
Definition owner_record : obj :=
  object [("component", VStr "input"); ("api", VFun 0);
          ("componentProps",
           VObj (object [("optionsAlias",
                          VObj (object [("labelField", VStr "name")]))]));
          ("field", VStr "owner"); ("label", VStr "Owner")].

(** What the fetch of [owner_node] resolves with:
    [{data: [{value:7, name:"ann", labelField:"ann"}]}] *)
Definition owner_rows : list obj :=
  [object [("value", VNum 7); ("name", VStr "ann"); ("labelField", VStr "ann")]].

Definition owner_response : value :=
  VObj (object [("data", VArr (VObj <$> owner_rows))]).

(** [Math.random()] always returning 0.625, respectively 0.125. *)
Definition draws_625 : nat → Q := fun _ => (5 # 8)%Q.
Definition draws_125 : nat → Q := fun _ => (1 # 8)%Q.

End Samples.

(** ** The string helpers of [utils/index] *)

Module Str.

(** A string is the sequence of its code units, here the units below 256. *)

(** [\w]: a digit, a letter of [A-Za-z], or the underscore. *)
Definition is_word (c : ascii) : bool :=
  let n := nat_of_ascii c in
  (((48 <=? n) && (n <=? 57)) || ((65 <=? n) && (n <=? 90))
   || (n =? 95) || ((97 <=? n) && (n <=? 122)))%nat.

(** [[A-Z]] *)
Definition is_upper (c : ascii) : bool :=
  let n := nat_of_ascii c in ((65 <=? n) && (n <=? 90))%nat.

(** [\s] below 256: tab, line feed, vertical tab, form feed, carriage
    return, space and no-break space. *)
Definition is_space (c : ascii) : bool :=
  let n := nat_of_ascii c in
  (((9 <=? n) && (n <=? 13)) || (n =? 32) || (n =? 160))%nat.

(** [toLowerCase] on one unit: [A-Z], and the capitals of the range
    [U+00C0 .. U+00DE] but for the multiplication sign. *)
Definition lower_char (c : ascii) : ascii :=
  let n := nat_of_ascii c in
  if (((65 <=? n) && (n <=? 90))
      || ((192 <=? n) && (n <=? 222) && negb (n =? 215)))%nat
  then ascii_of_nat (n + 32) else c.

Fixpoint toLowerCase (s : string) : string :=
  match s with
  | EmptyString => EmptyString
  | String c r => String (lower_char c) (toLowerCase r)
  end.

Section Replace.

(** [str.replace(re, fn)] for a global [re] without look-behind.
    [matcher at_start rest] is the length of the match of [re] that begins
    where [rest] begins, if there is one; [at_start] tells whether that is
    index 0.  [replacer] maps the matched text to its replacement. *)
Variable matcher : bool → string → option nat.
Variable replacer : string → string.

(** The scan from one index on: [skip] units still belong to the last match.
    An empty match is replaced and the scan moves one unit on, copying that
    unit; the end of the subject is tried like any other index. *)
Fixpoint replace_from (at_start : bool) (skip : nat) (s : string) {struct s}
  : string :=
  match skip with
  | Datatypes.S k =>
      match s with
      | String _ r => replace_from false k r
      | EmptyString => EmptyString
      end
  | O =>
      match matcher at_start s with
      | Some (Datatypes.S k) =>
          replacer (substring 0 (Datatypes.S k) s)
          ++ match s with
             | String _ r => replace_from false k r
             | EmptyString => EmptyString
             end
      | Some O =>
          replacer EmptyString
          ++ match s with
             | String c r => String c (replace_from false 0 r)
             | EmptyString => EmptyString
             end
      | None =>
          match s with
          | String c r => String c (replace_from false 0 r)
          | EmptyString => EmptyString
          end
      end
  end.

Definition replace_g (s : string) : string := replace_from true 0 s.

End Replace.

(** [/\-(\w)/]: a hyphen and the word unit after it. *)
Definition hyphen_word (at_start : bool) (rest : string) : option nat :=
  match rest with
  | String "-" (String c _) => if is_word c then Some 2%nat else None
  | _ => None
  end.

(** [(_, letter) => letter.toUpperCase()]: the group is what follows the
    hyphen. *)
Definition upper_letter (matched : string) : string :=
  match matched with
  | String _ letter => Samples.toUpperCase letter
  | EmptyString => EmptyString
  end.

Definition underlineToHump (str : string) : string :=
  replace_g hyphen_word upper_letter str.

(** [/([A-Z])/] *)
Definition capital (at_start : bool) (rest : string) : option nat :=
  match rest with
  | String c _ => if is_upper c then Some 1%nat else None
  | EmptyString => None
  end.

(** ['-$1'] *)
Definition hyphen_before (matched : string) : string := "-" ++ matched.

Definition humpToUnderline (str : string) : string :=
  toLowerCase (replace_g capital hyphen_before str).

(** The number of leading units of [s] that satisfy [p]. *)
Fixpoint span (p : ascii → bool) (s : string) : nat :=
  match s with
  | String c r => if p c then Datatypes.S (span p r) else O
  | EmptyString => O
  end.

Fixpoint all_of (p : ascii → bool) (s : string) : bool :=
  match s with
  | String c r => p c && all_of p r
  | EmptyString => true
  end.

(** The expression of [trim], white space anchored at the start or at the
    end: at index 0 the first alternative matches the leading white space,
    be it empty; elsewhere the second one matches when nothing but white
    space is left. *)
Definition blank_edge (at_start : bool) (rest : string) : option nat :=
  if at_start then Some (span is_space rest)
  else if all_of is_space rest then Some (String.length rest)
  else None.

Definition trim (str : string) : string :=
  replace_g blank_edge (fun _ => EmptyString) str.

(** Reference notions for [trim]. *)
Fixpoint drop_leading (s : string) : string :=
  match s with
  | String c r => if is_space c then drop_leading r else s
  | EmptyString => EmptyString
  end.

Fixpoint drop_trailing (s : string) : string :=
  match s with
  | String c r => if all_of is_space s then EmptyString
                  else String c (drop_trailing r)
  | EmptyString => EmptyString
  end.

(** The last unit of [String c s]. *)
Fixpoint last_char (c : ascii) (s : string) : ascii :=
  match s with
  | EmptyString => c
  | String d r => last_char d r
  end.

(** [s] neither begins nor ends with white space. *)
Definition tight (s : string) : bool :=
  match s with
  | EmptyString => true
  | String c r => negb (is_space c) && negb (is_space (last_char c r))
  end.

(** How many units of [s] satisfy [p]. *)
Fixpoint count_of (p : ascii → bool) (s : string) : nat :=
  match s with
  | EmptyString => O
  | String c r => ((if p c then 1 else 0) + count_of p r)%nat
  end.

(** Whether [s] begins with a word unit. *)
Definition head_word (s : string) : bool :=
  match s with
  | String d _ => is_word d
  | EmptyString => false
  end.

(** The shapes on which the two case conversions undo each other. *)

(** Nothing [toLowerCase] would change but [A-Z], and no hyphen before a
    unit of [[a-z0-9_]]. *)
Fixpoint camel_text (s : string) : bool :=
  match s with
  | EmptyString => true
  | String c r =>
      (is_upper c || Ascii.eqb (lower_char c) c)
      && match r with
         | String d _ =>
             negb (Ascii.eqb c "-" && is_word d && negb (is_upper d))
         | EmptyString => true
         end
      && camel_text r
  end.

(** No capital at all, and no hyphen before a digit or an underscore. *)
Fixpoint kebab_text (s : string) : bool :=
  match s with
  | EmptyString => true
  | String c r =>
      Ascii.eqb (lower_char c) c
      && match r with
         | String d _ =>
             negb (Ascii.eqb c "-" && is_word d
                   && Ascii.eqb (Samples.upper_char d) d)
         | EmptyString => true
         end
      && kebab_text r
  end.

End Str.

(** ** Further notions for the engine and its tasks *)

(** A shown node for which [filterSearchSchema] schedules a task: no truthy
    [dictName], and a truthy [api]. *)
Definition schedules (n : CrudSchema) : bool :=
  search_show n
  && negb (truthy (get (searchSchemaItem n) "dictName"))
  && truthy (get (searchSchemaItem n) "api").

(** A shown node that looks up the dictionary entry [d]. *)
Definition names (d : string) (n : CrudSchema) : bool :=
  search_show n
  && match get (searchSchemaItem n) "dictName" with
     | VStr s => negb (String.eqb s "") && String.eqb s d
     | _ => false
     end.

(** The component a record ends up with: the one of its block when the block
    has the key, the default otherwise. *)
Definition component_of (block : value) (fallback : string) : value :=
  match spread block !! "component" with
  | Some v => v
  | None => VStr fallback
  end.

(** [store[j].componentProps.options = opts], where that can be written. *)
Definition write_options (store : list obj) (j : nat) (opts : value) : list obj :=
  match store !! j with
  | Some target =>
      match get target "componentProps" with
      | VObj cp =>
          <[j := <["componentProps" := VObj (<["options" := opts]> cp)]> target]>
            store
      | _ => store
      end
  | None => store
  end.

(** What a task reads of a record: its [field], whether its
    [componentProps] can be written, and the alias in it. *)
Definition same_view (r r' : obj) : Prop :=
  get r' "field" = get r "field"
  ∧ is_obj (get r' "componentProps") = is_obj (get r "componentProps")
  ∧ prop (get r' "componentProps") "optionsAlias"
    = prop (get r "componentProps") "optionsAlias".

(** A task writes nothing of a record but [componentProps.options]. *)
Definition options_apart (r r' : obj) : Prop :=
  delete "componentProps" r' = delete "componentProps" r
  ∧ ∀ key, key ≠ "options" →
      opt_prop (get r' "componentProps") key = opt_prop (get r "componentProps") key.

Section Effect.

Variable t : value → value.
Variable has_findIndex : bool.

(** Where a settled task writes, and what: nothing for a rejection, a falsy
    result or an exception on the way. *)
Definition effect (store : list obj) (tk : Task) (o : Outcome)
  : option (nat * value) :=
  match o with
  | Rejects => None
  | Resolves res =>
      if truthy res then
        match store !! scheduler tk with
        | None => None
        | Some item =>
            let index :=
              findIndex has_findIndex store
                (fun v => strict_eq (get v "field") (get item "field")) in
            if index =? -1 then None
            else
              match store !! Z.to_nat index with
              | None => None
              | Some target =>
                  match
                    (let? data := prop res "data" in
                     let? alias := prop (get item "componentProps") "optionsAlias" in
                     filterOptions t data (opt_prop alias "labelField"))
                  with
                  | Ok opts =>
                      if is_obj (get target "componentProps")
                      then Some (Z.to_nat index, opts) else None
                  | Err _ => None
                  end
              end
        end
      else None
  end.

End Effect.

(** The units [toAnyString] can print. *)
Definition is_digit (c : ascii) : bool :=
  let n := nat_of_ascii c in ((48 <=? n) && (n <=? 57))%nat.

Definition is_hyphen (c : ascii) : bool := Ascii.eqb c "-".

Definition is_placeholder (c : ascii) : bool :=
  (Ascii.eqb c "x" || Ascii.eqb c "y")%bool.

Definition printable (c : ascii) : bool := (is_digit c || is_hyphen c)%bool.

(** More sample values. *)
Module MoreSamples.


(** [{data: []}] *)
Definition empty_response : value :=
  VObj (Samples.object [("data", VArr [])]).

End MoreSamples.

(** * Proofs *)

(** ** The traversal visits the pre-order listing *)

Section Traversal.

Context {S : Type}.

Lemma forEach_app (f : CrudSchema → M S unit) (l1 l2 : list CrudSchema) (s : S) :
  forEach f (l1 ++ l2) s = (forEach f l1 ;;; forEach f l2) s.
Proof.
  revert s. induction l1 as [|x l1 IH]; intros s; simpl.
  - reflexivity.
  - unfold bind in *. destruct (f x s) as [[[] s1]|e]; [|reflexivity].
    apply IH.
Qed.

Lemma forEach_flat_map (f : CrudSchema → M S unit) (g : CrudSchema → M S unit)
    (h : CrudSchema → list CrudSchema) (l : list CrudSchema) :
  Forall (fun n => ∀ s, g n s = forEach f (h n) s) l →
  ∀ s, forEach g l s = forEach f (flat_map h l) s.
Proof.
  induction 1 as [|x l Hx _ IH]; intros s; simpl.
  - reflexivity.
  - rewrite forEach_app. unfold bind. rewrite Hx.
    destruct (forEach f (h x) s) as [[[] s1]|e]; [apply IH | reflexivity].
Qed.

Lemma eachNode_preorder (cb : CrudSchema → M S unit) (n : CrudSchema) :
  ∀ s, Tree.eachNode cb n s = forEach cb (preorder_node n) s.
Proof.
  induction n as [p ch IH] using CrudSchema_forest_ind; intros s.
  simpl. unfold bind. destruct (cb (Schema p ch) s) as [[[] s1]|e]; [|reflexivity].
  destruct ch as [c|]; [|reflexivity].
  apply forEach_flat_map. exact IH.
Qed.

Lemma eachTree_preorder (cb : CrudSchema → M S unit) (tree : list CrudSchema) :
  ∀ s, Tree.eachTree tree cb s = forEach cb (preorder tree) s.
Proof.
  intros s. unfold Tree.eachTree, preorder. apply forEach_flat_map.
  apply Forall_forall. intros n _. apply eachNode_preorder.
Qed.

End Traversal.

(** ** Facts about the translator *)

Lemma translate_all_records (t : value → value) (lf : value) (recs : list obj) :
  translate_all t lf (VObj <$> recs)
  = Ok (VObj <$> map (translate_record t lf) recs).
Proof.
  induction recs as [|v recs IH]; [reflexivity|].
  rewrite fmap_cons. simpl. rewrite IH. reflexivity.
Qed.

Lemma option_list_records (v : value) :
  is_option_list v = true → ∃ recs : list obj, v = VArr (VObj <$> recs).
Proof.
  destruct v as [| | | | |l| |]; simpl; try discriminate.
  intros H. induction l as [|x l IH]; simpl in H.
  - exists []. reflexivity.
  - apply andb_prop in H as [Hx Hl]. destruct (IH Hl) as [recs Hrecs].
    destruct x; try discriminate. exists (o :: recs).
    injection Hrecs as ->. reflexivity.
Qed.

Lemma records_option_list (recs : list obj) :
  is_option_list (VArr (VObj <$> recs)) = true.
Proof. induction recs; simpl; auto. Qed.

Lemma filterOptions_records (t : value → value) (lf : value) (recs : list obj) :
  filterOptions t (VArr (VObj <$> recs)) lf
  = Ok (VArr (VObj <$> map (translate_record t lf) recs)).
Proof. unfold filterOptions. rewrite translate_all_records. reflexivity. Qed.

Lemma filterOptions_not_array (t : value → value) (lf v : value) :
  (∀ l, v ≠ VArr l) → filterOptions t v lf = Err TypeError.
Proof. destruct v; try reflexivity. intros H. destruct (H l eq_refl). Qed.

(** ** The flat projectors as filters of the pre-order listing *)

Section Flat.

Variable t : value → value.

Lemma forEach_formVisitor (l : list CrudSchema) (acc : list obj) :
  forEach formVisitor l acc
  = Ok (tt, acc ++ map (fun n => delete "show" (formSchemaItem n))
                      (List.filter form_show l))%list.
Proof.
  revert acc. induction l as [|n l IH]; intros acc; simpl.
  - rewrite app_nil_r. reflexivity.
  - unfold bind, formVisitor. destruct (form_show n); simpl.
    + rewrite IH, <- app_assoc. reflexivity.
    + apply IH.
Qed.

Lemma filterFormSchema_preorder (tree : list CrudSchema) :
  filterFormSchema tree
  = Ok (map (fun n => delete "show" (formSchemaItem n))
            (List.filter form_show (preorder tree))).
Proof.
  unfold filterFormSchema.
  rewrite eachTree_preorder, forEach_formVisitor. reflexivity.
Qed.

Lemma forEach_descriptionsVisitor (l : list CrudSchema) (acc : list obj) :
  forEach descriptionsVisitor l acc
  = Ok (tt, acc ++ map (fun n => delete "show" (descriptionsSchemaItem n))
                      (List.filter detail_show l))%list.
Proof.
  revert acc. induction l as [|n l IH]; intros acc; simpl.
  - rewrite app_nil_r. reflexivity.
  - unfold bind, descriptionsVisitor. destruct (detail_show n); simpl.
    + rewrite IH, <- app_assoc. reflexivity.
    + apply IH.
Qed.

Lemma filterDescriptionsSchema_preorder (tree : list CrudSchema) :
  filterDescriptionsSchema tree
  = Ok (map (fun n => delete "show" (descriptionsSchemaItem n))
            (List.filter detail_show (preorder tree))).
Proof.
  unfold filterDescriptionsSchema.
  rewrite eachTree_preorder, forEach_descriptionsVisitor. reflexivity.
Qed.

(** The enrichment touches [componentProps] only, and never the list. *)
Lemma enrich_spec (item item' : obj) (s s' : SearchState) :
  is_Some (item !! "componentProps") →
  enrich t item s = Ok (item', s') →
  (∃ cp, item' = <["componentProps" := cp]> item)
  ∧ searchSchema_acc s' = searchSchema_acc s.
Proof.
  intros [cp0 Hcp0]. unfold enrich.
  destruct (truthy (get item "dictName")).
  - unfold bind, gets, lift, store_dict, modify, ret.
    destruct (filterOptions t _ VUndef) as [opts|e]; [|discriminate].
    destruct (set_prop _ "options" opts) as [cp|e]; [|discriminate].
    intros [= <- <-]. split; [eauto | reflexivity].
  - destruct (truthy (get item "api")).
    + unfold bind, push_task, modify, ret. intros [= <- <-].
      split; [|reflexivity]. exists cp0. symmetry. by apply insert_id.
    + unfold ret. intros [= <- <-].
      split; [|reflexivity]. exists cp0. symmetry. by apply insert_id.
Qed.

Lemma searchSchemaItem_componentProps (n : CrudSchema) :
  is_Some (searchSchemaItem n !! "componentProps").
Proof.
  unfold searchSchemaItem.
  rewrite lookup_insert_ne by done. rewrite lookup_insert_ne by done.
  rewrite lookup_union.
  destruct (spread (get (props n) "search") !! "componentProps") as [v|] eqn:E.
  - rewrite lookup_insert_ne by done. rewrite lookup_singleton_eq. simpl. eauto.
  - rewrite lookup_insert_ne by done. rewrite lookup_singleton_eq. simpl. eauto.
Qed.

Lemma searchVisitor_shown (n : CrudSchema) (s s' : SearchState) :
  search_show n = true →
  searchVisitor t n s = Ok (tt, s') →
  ∃ r, search_record_of n r
       ∧ searchSchema_acc s' = (searchSchema_acc s ++ [r])%list.
Proof.
  intros Hshow. unfold searchVisitor. rewrite Hshow. unfold bind.
  destruct (enrich t (searchSchemaItem n) s) as [[item s1]|e] eqn:E; [|discriminate].
  destruct (enrich_spec _ _ _ _ (searchSchemaItem_componentProps n) E)
    as [[cp ->] Hacc].
  unfold push_search, modify. intros [= <-]. simpl.
  exists (delete "dictName" (delete "show" (<["componentProps" := cp]> (searchSchemaItem n)))).
  split; [|by rewrite Hacc].
  exists cp. rewrite !delete_insert_ne by done. reflexivity.
Qed.

Lemma forEach_searchVisitor (l : list CrudSchema) (s s' : SearchState) :
  forEach (searchVisitor t) l s = Ok (tt, s') →
  ∃ recs, searchSchema_acc s' = (searchSchema_acc s ++ recs)%list
          ∧ Forall2 search_record_of (List.filter search_show l) recs.
Proof.
  revert s. induction l as [|n l IH]; intros s; simpl.
  - intros [= <-]. exists []. rewrite app_nil_r. split; [reflexivity | constructor].
  - unfold bind.
    destruct (searchVisitor t n s) as [[[] s1]|e] eqn:E; [|discriminate].
    intros H. destruct (IH _ H) as (recs & Hacc & Hrecs).
    destruct (search_show n) eqn:Hshow.
    + destruct (searchVisitor_shown _ _ _ Hshow E) as (r & Hr & Hs1).
      exists (r :: recs). split.
      * rewrite Hacc, Hs1, <- app_assoc. reflexivity.
      * constructor; assumption.
    + unfold searchVisitor in E. rewrite Hshow in E. injection E as <-.
      exists recs. split; assumption.
Qed.

Lemma filterSearchSchema_preorder (tree : list CrudSchema) (dict dict' : obj)
    (out : list obj) (tasks : list Task) :
  filterSearchSchema t tree dict = Ok (out, tasks, dict') →
  Forall2 search_record_of (List.filter search_show (preorder tree)) out.
Proof.
  unfold filterSearchSchema. rewrite eachTree_preorder.
  destruct (forEach _ _ _) as [[[] s']|e] eqn:E; [|discriminate].
  intros [= <- <- <-].
  destruct (forEach_searchVisitor _ _ _ E) as (recs & Hacc & Hrecs).
  simpl in Hacc. rewrite Hacc. exact Hrecs.
Qed.

End Flat.

(** ** When the search projector returns *)

Section Totality.

Variable t : value → value.

Lemma dict_ready_store (dict : obj) (d : string) (recs : list obj) (n : CrudSchema) :
  dict_ready dict n = true →
  dict_ready (<[d := VArr (VObj <$> recs)]> dict) n = true.
Proof.
  unfold dict_ready. intros H.
  destruct (negb (search_show n)); [reflexivity|].
  destruct (negb (truthy _)); [reflexivity|]. simpl in *.
  apply andb_prop in H as [H1 H2]. rewrite H2, andb_true_r.
  destruct (get (searchSchemaItem n) "dictName") as [| | | |name| | |];
    try discriminate.
  unfold index_by, get in *. destruct (decide (d = name)) as [->|Hne].
  - rewrite lookup_insert_eq. apply records_option_list.
  - rewrite lookup_insert_ne by done. exact H1.
Qed.

Lemma searchVisitor_total (n : CrudSchema) (s : SearchState) :
  dict_ready (getDictObj s) n = true →
  ∃ s', searchVisitor t n s = Ok (tt, s')
        ∧ ∀ m, dict_ready (getDictObj s) m = true →
               dict_ready (getDictObj s') m = true.
Proof.
  unfold dict_ready, searchVisitor. intros H.
  destruct (search_show n); [|eauto]. simpl in H.
  unfold bind, enrich.
  destruct (truthy (get (searchSchemaItem n) "dictName")) eqn:Hd; simpl in H.
  - apply andb_prop in H as [H1 H2].
    destruct (option_list_records _ H1) as [recs Hrecs].
    unfold bind, gets, lift. rewrite Hrecs, filterOptions_records.
    destruct (get (searchSchemaItem n) "componentProps"); try discriminate.
    simpl. eexists. split; [reflexivity|]. simpl. intros m Hm.
    destruct (get (searchSchemaItem n) "dictName"); try exact Hm.
    rewrite <- fmap_cons || idtac. by apply dict_ready_store.
  - destruct (truthy (get (searchSchemaItem n) "api")); simpl;
      eexists; (split; [reflexivity | auto]).
Qed.

Lemma forEach_searchVisitor_total (l : list CrudSchema) (s : SearchState) :
  Forall (fun n => dict_ready (getDictObj s) n = true) l →
  ∃ s', forEach (searchVisitor t) l s = Ok (tt, s').
Proof.
  revert s. induction l as [|n l IH]; intros s Hall; simpl.
  - eexists. reflexivity.
  - inversion Hall as [|? ? Hn Hl]; subst.
    destruct (searchVisitor_total n s Hn) as (s1 & E & Hkeep).
    unfold bind. rewrite E. apply IH.
    eapply Forall_impl; [exact Hl | exact Hkeep].
Qed.

(** With every dictionary entry in place the engine returns its aggregate. *)
Lemma useCrudSchemas_total (tree : list CrudSchema) (dict : obj) :
  Forall (fun n => dict_ready dict n = true) (preorder tree) →
  ∃ all tasks dict', useCrudSchemas t tree dict = Ok (all, tasks, dict').
Proof.
  intros H. unfold useCrudSchemas, filterSearchSchema.
  rewrite eachTree_preorder.
  destruct (forEach_searchVisitor_total (preorder tree)
              {| getDictObj := dict; searchSchema_acc := [];
                 searchRequestTask := [] |} H) as [s' ->].
  rewrite filterFormSchema_preorder, filterDescriptionsSchema_preorder.
  eauto.
Qed.

End Totality.

(** ** [findIndex] returns the first match *)

Section FindIndexFacts.

Context {A : Type}.

Lemma some_findIndex_native (fn : A → bool) (ary : list A) (i : Z) :
  some_findIndex fn ary i (-1) = native_findIndex fn ary i.
Proof.
  revert i. induction ary as [|x ary IH]; intros i; simpl; [reflexivity|].
  destruct (fn x); [reflexivity | apply IH].
Qed.

Lemma findIndex_native (b : bool) (ary : list A) (fn : A → bool) :
  findIndex b ary fn = native_findIndex fn ary 0.
Proof. destruct b; simpl; [reflexivity | apply some_findIndex_native]. Qed.

Lemma native_findIndex_spec (fn : A → bool) (ary : list A) (i : Z) :
  (native_findIndex fn ary i = -1 ∧ Forall (fun x => fn x = false) ary)
  ∨ ∃ j x, native_findIndex fn ary i = i + Z.of_nat j ∧ first_match fn ary j x.
Proof.
  revert i. induction ary as [|a ary IH]; intros i; simpl.
  - left. split; [reflexivity | constructor].
  - destruct (fn a) eqn:Ha.
    + right. exists 0%nat, a. split; [lia|].
      split; [reflexivity|]. split; [assumption|]. intros k y Hk. lia.
    + destruct (IH (i + 1)) as [[E Hall]|(j & x & E & Hj & Hx & Hmin)].
      * left. split; [assumption | by constructor].
      * right. exists (Datatypes.S j), x. split; [lia|].
        split; [exact Hj|]. split; [assumption|].
        intros [|k] y Hk Hy; simpl in Hy.
        -- by injection Hy as <-.
        -- apply (Hmin k y); [lia | assumption].
Qed.

Lemma findIndex_found (b : bool) (fn : A → bool) (ary : list A) (i : nat) (x : A) :
  ary !! i = Some x → fn x = true →
  ∃ j y, findIndex b ary fn = Z.of_nat j ∧ first_match fn ary j y.
Proof.
  intros Hi Hx. rewrite findIndex_native.
  destruct (native_findIndex_spec fn ary 0) as [[_ Hall]|(j & y & E & Hm)].
  - rewrite Forall_forall in Hall.
    assert (fn x = false) as Hf
      by (apply Hall, list_elem_of_lookup; eauto).
    congruence.
  - exists j, y. split; [lia | exact Hm].
Qed.

End FindIndexFacts.

(** ** The table projector keeps the exposed nodes *)

Section Table.

Lemma keep_cons (c : TableColumn) (l : list TableColumn) :
  Tree.keep hasField (c :: l) = (Tree.keep hasField [c] ++ Tree.keep hasField l)%list.
Proof.
  unfold Tree.keep, hasField. simpl.
  destruct (truthy (get (cprops c) "field")); reflexivity.
Qed.

Lemma filter_treeMap_flat_map (tree : list CrudSchema) :
  Tree.keep hasField
    (map (Tree.filterNode hasField) (map (Tree.treeMapEach conversion) tree))
  = flat_map project_node tree.
Proof.
  induction tree as [|n tree IH]; [reflexivity|].
  simpl map. rewrite keep_cons, IH. reflexivity.
Qed.

Lemma flatten_strip_empty (l : list TableColumn) :
  match Tree.strip_empty l with
  | Some l' => flat_map flatten_column l'
  | None => []
  end = flat_map flatten_column l.
Proof. destruct l; reflexivity. Qed.

Lemma flatten_flat_map (f : CrudSchema → list TableColumn)
    (g : CrudSchema → list CrudSchema) (l : list CrudSchema) :
  Forall (fun n => flatten (f n) = map tableItem (g n)) l →
  flatten (flat_map f l) = map tableItem (flat_map g l).
Proof.
  induction 1 as [|n l Hn _ IH]; [reflexivity|].
  simpl. unfold flatten in *. rewrite flat_map_app, map_app, Hn, IH. reflexivity.
Qed.

Lemma empty_record_no_field : truthy (get (∅ : obj) "field") = false.
Proof. reflexivity. Qed.

Lemma project_node_eq (p : obj) (ch : option (list CrudSchema)) :
  project_node (Schema p ch)
  = if table_kept (Schema p ch)
    then [Column (tableItem (Schema p ch))
            match ch with
            | Some c => Tree.strip_empty (flat_map project_node c)
            | None => None
            end]
    else [].
Proof.
  unfold project_node at 1. cbn [Tree.treeMapEach Tree.filterNode].
  assert (match option_map (map (Tree.treeMapEach conversion)) ch with
          | Some l => Tree.strip_empty
                        (Tree.keep hasField (map (Tree.filterNode hasField) l))
          | None => None
          end
          = match ch with
            | Some c => Tree.strip_empty (flat_map project_node c)
            | None => None
            end) as ->.
  { destruct ch as [c|]; [|reflexivity]. cbn [option_map].
    rewrite filter_treeMap_flat_map. reflexivity. }
  generalize (match ch with
              | Some c => Tree.strip_empty (flat_map project_node c)
              | None => None
              end).
  intros kids. unfold Tree.keep, hasField, table_kept, conversion.
  destruct (table_show (Schema p ch)); simpl.
  - destruct (truthy (get (tableItem (Schema p ch)) "field")); [|reflexivity].
    destruct kids; reflexivity.
  - reflexivity.
Qed.

Lemma table_sources_node_eq (p : obj) (ch : option (list CrudSchema)) :
  table_sources_node (Schema p ch)
  = if table_kept (Schema p ch)
    then Schema p ch :: match ch with
                        | Some c => flat_map table_sources_node c
                        | None => []
                        end
    else [].
Proof. reflexivity. Qed.

Lemma project_node_sources (n : CrudSchema) :
  flatten (project_node n) = map tableItem (table_sources_node n).
Proof.
  induction n as [p ch IH] using CrudSchema_forest_ind.
  rewrite project_node_eq, table_sources_node_eq.
  destruct (table_kept (Schema p ch)); [|reflexivity].
  unfold flatten. cbn [flat_map flatten_column map]. rewrite app_nil_r. f_equal.
  destruct ch as [c|]; [|reflexivity].
  rewrite flatten_strip_empty. apply (flatten_flat_map _ _ _ IH).
Qed.

Lemma filterTableSchema_sources (tree : list CrudSchema) :
  flatten (filterTableSchema tree) = map tableItem (table_sources tree).
Proof.
  unfold filterTableSchema, Tree.filter, Tree.treeMap, table_sources.
  rewrite filter_treeMap_flat_map. apply flatten_flat_map.
  apply Forall_forall. intros n _. apply project_node_sources.
Qed.

Lemma exposed_kept (tree : list CrudSchema) (n : CrudSchema) :
  exposed tree n → table_kept n = true.
Proof. induction 1; assumption. Qed.

Lemma exposed_split (tree : list CrudSchema) (n : CrudSchema) :
  exposed tree n ↔ ∃ m, In m tree ∧ exposed [m] n.
Proof.
  split.
  - intros H. destruct H as [tree n Hin Hk | tree parent c n Hin Hk Hc Hn].
    + exists n. split; [assumption|]. apply exposed_here; [by left | assumption].
    + exists parent. split; [assumption|].
      eapply exposed_below; [by left | eassumption..].
  - intros (m & Hm & H). inversion H as [? ? Hin Hk | ? parent c ? Hin Hk Hc Hn]; subst.
    + destruct Hin as [<-|[]]. by apply exposed_here.
    + destruct Hin as [<-|[]]. eapply exposed_below; eassumption.
Qed.

Lemma table_sources_flat_map (l : list CrudSchema) (n : CrudSchema) :
  Forall (fun m => In n (table_sources_node m) ↔ exposed [m] n) l →
  In n (flat_map table_sources_node l) ↔ exposed l n.
Proof.
  intros Hall. rewrite in_flat_map, exposed_split.
  rewrite Forall_forall in Hall.
  split; intros (m & Hm & H); exists m; (split; [assumption|]);
    apply Hall; [apply list_elem_of_In| |apply list_elem_of_In|]; assumption.
Qed.

Lemma table_sources_node_exposed (m n : CrudSchema) :
  In n (table_sources_node m) ↔ exposed [m] n.
Proof.
  revert n. induction m as [p ch IH] using CrudSchema_forest_ind. intros n.
  simpl. destruct (table_kept (Schema p ch)) eqn:Hk.
  - split.
    + intros [<-|Hin].
      * apply exposed_here; [by left | assumption].
      * destruct ch as [c|]; [|destruct Hin].
        eapply exposed_below; [by left | exact Hk | reflexivity |].
        apply table_sources_flat_map; [|assumption].
        eapply Forall_impl; [exact IH|]. intros x Hx. apply Hx.
    + intros H. inversion H as [? ? Hin _ | ? parent c ? Hin _ Hc Hn]; subst.
      * destruct Hin as [<-|[]]. by left.
      * destruct Hin as [<-|[]]. simpl in Hc. subst ch. right.
        apply table_sources_flat_map; [|assumption].
        eapply Forall_impl; [exact IH|]. intros x Hx. apply Hx.
  - split; [intros []|].
    intros H. inversion H as [? ? Hin Hk' | ? parent c ? Hin Hk' _ _]; subst;
      destruct Hin as [<-|[]]; congruence.
Qed.

Lemma table_sources_exposed (tree : list CrudSchema) (n : CrudSchema) :
  In n (table_sources tree) ↔ exposed tree n.
Proof.
  apply table_sources_flat_map, Forall_forall.
  intros m _. apply table_sources_node_exposed.
Qed.

End Table.

(** ** The claims *)

(** C9.  Without a label field and with [Translate(s) = s.toUpperCase()],
    [filterOptions] maps [[{label:"x"}]] to [[{label:"X"}]], and in general
    rewrites [label] in place.  With the label field ["alt"] supplied, every
    record gets the translated value under the key spelled [labelField], read
    from that same key; the key [alt] is neither read nor written. *)
Theorem C9_filterOptions_literal_key :
  filterOptions Samples.upper_t (VArr [VObj {["label" := VStr "x"]}]) VUndef
  = Ok (VArr [VObj {["label" := VStr "X"]}])
  ∧ (∀ (t : value → value) (recs : list obj),
       filterOptions t (VArr (VObj <$> recs)) VUndef
       = Ok (VArr (VObj <$> map (fun v => <["label" := t (get v "label")]> v) recs)))
  ∧ (∀ (t : value → value) (recs : list obj),
       filterOptions t (VArr (VObj <$> recs)) (VStr "alt")
       = Ok (VArr (VObj <$> map (fun v => <["labelField" := t (get v "labelField")]> v)
                              recs)))
  ∧ (∀ (t : value → value) (v : obj),
       translate_record t (VStr "alt") v !! "labelField"
       = Some (t (get v "labelField"))
       ∧ ∀ k, k ≠ "labelField" → translate_record t (VStr "alt") v !! k = v !! k).
Proof.
  split; [reflexivity|]. split; [|split].
  - intros t recs. apply filterOptions_records.
  - intros t recs. apply filterOptions_records.
  - intros t v. unfold translate_record. simpl. split.
    + apply lookup_insert_eq.
    + intros k Hk. by apply lookup_insert_ne.
Qed.

(** C3 (the code departs from it).  A shown search node whose [dictName]
    names no entry of the dictionary makes the whole engine raise a
    [TypeError]: [filterOptions] calls [map] on [undefined].  No aggregate is
    returned, whatever follows the node in the tree. *)
Theorem C3_missing_dictionary_entry_raises (t : value → value)
    (rest : list CrudSchema) :
  useCrudSchemas t (Samples.status_node :: rest) ∅ = Err TypeError.
Proof. reflexivity. Qed.

(** C4 (the code departs from it).  On the dictionary path the label alias of
    the node is not handed to [filterOptions]: the options written into
    [componentProps.options] have [label] translated, which is not what the
    translation through the alias gives. *)
Theorem C4_dictionary_path_ignores_alias (t : value → value) :
  let entry := Samples.object [("value", VNum 1); ("label", VStr "a")] in
  ∃ all tasks dict' r,
    useCrudSchemas t [Samples.alias_node] Samples.kinds_dict = Ok (all, tasks, dict')
    ∧ searchSchema all = [r]
    ∧ opt_prop (opt_prop (get r "componentProps") "optionsAlias") "labelField"
      = VStr "name"
    ∧ opt_prop (get r "componentProps") "options"
      = VArr [VObj (<["label" := t (VStr "a")]> entry)]
    ∧ filterOptions t (VArr [VObj entry]) (VStr "name")
      = Ok (VArr [VObj (<["labelField" := t VUndef]> entry)])
    ∧ <["label" := t (VStr "a")]> entry ≠ <["labelField" := t VUndef]> entry.
Proof.
  intros entry. do 4 eexists.
  split; [reflexivity|]. split; [reflexivity|].
  split; [reflexivity|]. split; [reflexivity|]. split; [reflexivity|].
  intros H. apply (f_equal (fun m : obj => m !! "labelField")) in H.
  rewrite lookup_insert_eq, lookup_insert_ne in H by done.
  discriminate H.
Qed.

(** C10 (the code departs from it).  [toAnyString] prints every drawn value
    in decimal: a draw of 10 puts the two characters [10] where the template
    has one [x], and the [y] position shows [10] for a draw of 2, so the
    result neither keeps the length of the template nor consists of single
    hexadecimal digits. *)
Theorem C10_toAnyString_prints_decimal :
  AnyString.toAnyString Samples.draws_625
  = "1010101010-1010101010-410101010-1010101010-1010101010"
  ∧ AnyString.toAnyString Samples.draws_125 = "22222-22222-42222-102222-22222"
  ∧ String.length (AnyString.toAnyString Samples.draws_625)
    ≠ String.length AnyString.template.
Proof.
  split; [reflexivity|]. split; [reflexivity|]. vm_compute. discriminate.
Qed.

(** C5.  A task whose fetch rejects, or resolves with nothing, leaves
    [searchSchema] as it was: no record is written, so every [componentProps]
    stays as assembled.  [run_task] has no error result: nothing is raised to
    a caller. *)
Theorem C5_failed_fetch_is_no_update (t : value → value) (b : bool)
    (searchSchema : list obj) (tk : Task) (o : Outcome) :
  no_result o = true →
  run_task t b searchSchema tk o = searchSchema.
Proof.
  destruct o as [|res]; simpl; [reflexivity|].
  intros H. unfold patch. apply negb_true_iff in H. rewrite H. reflexivity.
Qed.

Lemma C5_witness :
  no_result (Resolves VUndef) = true
  ∧ run_task Samples.upper_t true (searchSchema Samples.sample_all)
      {| scheduler := 2 |} (Resolves VUndef)
    = searchSchema Samples.sample_all.
Proof.
  split; [reflexivity|]. apply C5_failed_fetch_is_no_update. reflexivity.
Defined.

Lemma strict_eq_refl (v : value) : is_prim v = true → strict_eq v v = true.
Proof.
  destruct v; simpl; try discriminate; intros _; try reflexivity.
  - by destruct b.
  - apply Z.eqb_refl.
  - apply String.eqb_refl.
Qed.

Lemma prop_truthy (v : value) (k : string) :
  truthy v = true → prop v k = Ok (opt_prop v k).
Proof. destruct v; simpl; try discriminate; reflexivity. Qed.



(** ** The store of the tasks stays well formed *)

Section Store.

Variable t : value → value.

Lemma enrich_frame (item item' : obj) (s s' : SearchState) :
  enrich t item s = Ok (item', s') →
  (record_typed item = true → record_typed item' = true)
  ∧ searchSchema_acc s' = searchSchema_acc s
  ∧ (searchRequestTask s' = searchRequestTask s
     ∨ searchRequestTask s'
       = (searchRequestTask s
            ++ [{| scheduler := length (searchSchema_acc s) |}])%list).
Proof.
  unfold enrich. destruct (truthy (get item "dictName")).
  - unfold bind, gets, lift, store_dict, modify, ret.
    destruct (filterOptions t _ VUndef) as [opts|e]; [|discriminate].
    destruct (get item "componentProps") as [| | | | | |cp|] eqn:Ecp;
      try discriminate.
    simpl. intros [= <- <-]. simpl. split; [|auto].
    unfold record_typed, get. rewrite lookup_insert_eq.
    rewrite lookup_insert_ne by done. simpl. intros H.
    by apply andb_prop in H as [_ H].
  - destruct (truthy (get item "api")).
    + unfold bind, push_task, modify, ret. intros [= <- <-]. simpl. auto.
    + unfold ret. intros [= <- <-]. auto.
Qed.

Lemma record_typed_strip (item : obj) :
  record_typed (delete "dictName" (delete "show" item)) = record_typed item.
Proof.
  unfold record_typed, get. by rewrite !lookup_delete_ne.
Qed.

Lemma searchVisitor_state_ok (n : CrudSchema) (s s' : SearchState) :
  (search_show n = true → search_typed n = true) →
  searchVisitor t n s = Ok (tt, s') → state_ok s → state_ok s'.
Proof.
  intros Htyped. unfold searchVisitor.
  destruct (search_show n); [|by intros [= <-]].
  unfold bind.
  destruct (enrich t (searchSchemaItem n) s) as [[item s1]|e] eqn:E; [|discriminate].
  destruct (enrich_frame _ _ _ _ E) as (Hrec & Hacc & Htasks).
  unfold push_search, modify. intros [= <-] [Hrecs Htks]. split; simpl.
  - rewrite Hacc. apply Forall_app. split; [assumption|].
    constructor; [|constructor]. rewrite record_typed_strip. auto.
  - rewrite Hacc, length_app. simpl.
    destruct Htasks as [->| ->].
    + eapply Forall_impl; [exact Htks|]. simpl. intros tk Htk. lia.
    + apply Forall_app. split.
      * eapply Forall_impl; [exact Htks|]. simpl. intros tk Htk. lia.
      * constructor; [simpl; lia | constructor].
Qed.

Lemma forEach_searchVisitor_state_ok (l : list CrudSchema) (s s' : SearchState) :
  Forall (fun n => search_show n = true → search_typed n = true) l →
  forEach (searchVisitor t) l s = Ok (tt, s') → state_ok s → state_ok s'.
Proof.
  intros Hall. revert s. induction Hall as [|n l Hn _ IH]; intros s; simpl.
  - by intros [= <-].
  - unfold bind.
    destruct (searchVisitor t n s) as [[[] s1]|e] eqn:E; [|discriminate].
    intros Hrest Hs. apply (IH _ Hrest).
    eapply searchVisitor_state_ok; eassumption.
Qed.

(** On a tree whose shown search nodes are well typed, the assembled list is
    well typed and every task started points at a record of it. *)
Lemma filterSearchSchema_store_ok (tree : list CrudSchema) (dict dict' : obj)
    (out : list obj) (tasks : list Task) :
  Forall (fun n => search_show n = true → search_typed n = true) (preorder tree) →
  filterSearchSchema t tree dict = Ok (out, tasks, dict') →
  Forall (fun r => record_typed r = true) out
  ∧ Forall (fun tk => (scheduler tk < length out)%nat) tasks.
Proof.
  intros Hall. unfold filterSearchSchema. rewrite eachTree_preorder.
  destruct (forEach _ _ _) as [[[] s']|e] eqn:E; [|discriminate].
  intros [= <- <- <-].
  apply (forEach_searchVisitor_state_ok _ _ _ Hall E).
  split; constructor.
Qed.

(** A task keeps the length of the list and the typing of its records. *)
Lemma run_task_store_ok (b : bool) (store : list obj) (tk : Task) (o : Outcome) :
  Forall (fun r => record_typed r = true) store →
  length (run_task t b store tk o) = length store
  ∧ Forall (fun r => record_typed r = true) (run_task t b store tk o).
Proof.
  intros Hall. destruct o as [|res]; simpl; [auto|].
  unfold patch. destruct (truthy res); [|auto].
  destruct (store !! scheduler tk) as [item|]; [|auto].
  destruct (findIndex b store _ =? -1); [auto|].
  destruct (store !! Z.to_nat _) as [target|] eqn:Ht; [|auto].
  destruct (prop res "data") as [data|]; [|auto]. cbn [rbind].
  destruct (prop (get item "componentProps") "optionsAlias") as [alias|]; [|auto].
  cbn [rbind].
  destruct (filterOptions t data _) as [opts|]; [|auto]. cbn [rbind].
  destruct (get target "componentProps") as [| | | | | |cp|] eqn:Ecp; simpl; auto.
  split; [apply length_insert|].
  apply Forall_insert; [assumption|].
  rewrite Forall_forall in Hall.
  assert (record_typed target = true) as Htyped
    by (apply Hall, list_elem_of_lookup; eauto).
  unfold record_typed, get in *. rewrite lookup_insert_eq.
  rewrite lookup_insert_ne by done. simpl.
  by apply andb_prop in Htyped as [_ ->].
Qed.

End Store.

(** ** What the aggregate holds *)

Lemma useCrudSchemas_inv (t : value → value) (tree : list CrudSchema)
    (dict dict' : obj) (all : AllSchemas) (tasks : list Task) :
  useCrudSchemas t tree dict = Ok (all, tasks, dict') →
  filterSearchSchema t tree dict = Ok (searchSchema all, tasks, dict')
  ∧ tableColumns all = filterTableSchema tree
  ∧ formSchema all
    = map (fun n => delete "show" (formSchemaItem n))
          (List.filter form_show (preorder tree))
  ∧ detailSchema all
    = map (fun n => delete "show" (descriptionsSchemaItem n))
          (List.filter detail_show (preorder tree)).
Proof.
  unfold useCrudSchemas.
  destruct (filterSearchSchema t tree dict) as [[[out tk] d]|e]; [|discriminate].
  rewrite filterFormSchema_preorder, filterDescriptionsSchema_preorder.
  intros [= <- <- <-]. simpl. auto.
Qed.

Lemma Forall2_map_r_eq {A B : Type} (P : A → B → Prop) (f : A → B) (l : list A) :
  (∀ x, P x (f x)) → Forall2 P l (map f l).
Proof. intros H. induction l; constructor; auto. Qed.

Lemma search_record_identity (n : CrudSchema) (r : obj) :
  search_record_of n r →
  get r "field" = get (props n) "field" ∧ get r "label" = get (props n) "label".
Proof.
  intros [cp ->]. unfold get, searchSchemaItem.
  rewrite !lookup_insert_ne, !lookup_delete_ne by done.
  rewrite lookup_insert_ne, lookup_insert_eq by done.
  rewrite lookup_insert_eq. split; reflexivity.
Qed.

(** C1.  The records of [searchSchema] are those of the nodes whose
    [search.show] is truthy, one each: a node with [search.show] equal to
    [true] is among the sources and has its record in the list, a node whose
    [search.show] is absent or [false] is not among them, and every record of
    the list comes from a source. *)
Theorem C1_search_lists_the_shown_nodes (t : value → value)
    (tree : list CrudSchema) (dict dict' : obj) (all : AllSchemas)
    (tasks : list Task) :
  useCrudSchemas t tree dict = Ok (all, tasks, dict') →
  let shown := List.filter search_show (preorder tree) in
  (∀ n, In n (preorder tree) →
     let show := opt_prop (get (props n) "search") "show" in
     (show = VBool true → In n shown)
     ∧ (show = VUndef ∨ show = VBool false → ¬ In n shown))
  ∧ (∀ n, In n shown → ∃ r, In r (searchSchema all) ∧ search_record_of n r)
  ∧ (∀ r, In r (searchSchema all) → ∃ n, In n shown ∧ search_record_of n r)
  ∧ length (searchSchema all) = length shown.
Proof.
  intros Hrun shown.
  destruct (useCrudSchemas_inv _ _ _ _ _ _ Hrun) as (Hsearch & _).
  pose proof (filterSearchSchema_preorder _ _ _ _ _ _ Hsearch) as Hrecs.
  fold shown in Hrecs. split; [|split; [|split]].
  - intros n Hn show. split.
    + intros Hshow. apply filter_In. split; [assumption|].
      unfold search_show. fold show. rewrite Hshow. reflexivity.
    + intros Hshow Hin. apply filter_In in Hin as [_ Hin].
      unfold search_show in Hin. fold show in Hin.
      destruct Hshow as [Hshow|Hshow]; rewrite Hshow in Hin; discriminate.
  - intros n Hn. apply list_elem_of_In, list_elem_of_lookup in Hn as [i Hi].
    destruct (Forall2_lookup_l _ _ _ _ _ Hrecs Hi) as (r & Hr & Hnr).
    exists r. split; [|assumption].
    apply list_elem_of_In, list_elem_of_lookup. eauto.
  - intros r Hr. apply list_elem_of_In, list_elem_of_lookup in Hr as [i Hi].
    destruct (Forall2_lookup_r _ _ _ _ _ Hrecs Hi) as (n & Hn & Hnr).
    exists n. split; [|assumption].
    apply list_elem_of_In, list_elem_of_lookup. eauto.
  - symmetry. eapply Forall2_length. exact Hrecs.
Qed.

(** C8.  [searchSchema], [formSchema] and [detailSchema] are flat: each is a
    list of records, and it lists, in pre-order of the input tree, the
    records of the nodes visible in that view. *)
Theorem C8_flat_projections_in_preorder (t : value → value)
    (tree : list CrudSchema) (dict dict' : obj) (all : AllSchemas)
    (tasks : list Task) :
  useCrudSchemas t tree dict = Ok (all, tasks, dict') →
  Forall2 search_record_of
    (List.filter search_show (preorder tree)) (searchSchema all)
  ∧ formSchema all
    = map (fun n => delete "show" (formSchemaItem n))
          (List.filter form_show (preorder tree))
  ∧ detailSchema all
    = map (fun n => delete "show" (descriptionsSchemaItem n))
          (List.filter detail_show (preorder tree)).
Proof.
  intros Hrun.
  destruct (useCrudSchemas_inv _ _ _ _ _ _ Hrun) as (Hsearch & _ & Hform & Hdetail).
  split; [|split; assumption].
  eapply filterSearchSchema_preorder. exact Hsearch.
Qed.

(** C7 (as amended).  In the search, form and detail projections every record
    has the [field] and [label] of its node, whatever the view block holds.
    In the table projection the keys of the node override those of the table
    block: a column has the node's [field] and [label] where the node carries
    the key, and the table block's value for the one the node lacks. *)
Theorem C7_identity_of_projected_records (t : value → value)
    (tree : list CrudSchema) (dict dict' : obj) (all : AllSchemas)
    (tasks : list Task) :
  useCrudSchemas t tree dict = Ok (all, tasks, dict') →
  Forall2 keeps_identity
    (List.filter search_show (preorder tree)) (searchSchema all)
  ∧ Forall2 keeps_identity
      (List.filter form_show (preorder tree)) (formSchema all)
  ∧ Forall2 keeps_identity
      (List.filter detail_show (preorder tree)) (detailSchema all)
  ∧ Forall2 (fun n c =>
               ∀ k, k = "field" ∨ k = "label" →
                    c !! k = match props n !! k with
                             | Some v => Some v
                             | None => spread (get (props n) "table") !! k
                             end)
      (table_sources tree) (flatten (tableColumns all)).
Proof.
  intros Hrun.
  destruct (useCrudSchemas_inv _ _ _ _ _ _ Hrun)
    as (Hsearch & Htable & Hform & Hdetail).
  split; [|split; [|split]].
  - eapply Forall2_impl; [eapply filterSearchSchema_preorder; exact Hsearch|].
    intros n r. apply search_record_identity.
  - rewrite Hform. apply Forall2_map_r_eq. intros n.
    unfold keeps_identity, get, formSchemaItem.
    rewrite !lookup_delete_ne by done.
    rewrite lookup_insert_ne, lookup_insert_eq by done.
    rewrite lookup_insert_eq. split; reflexivity.
  - rewrite Hdetail. apply Forall2_map_r_eq. intros n.
    unfold keeps_identity, get, descriptionsSchemaItem.
    rewrite !lookup_delete_ne by done.
    rewrite lookup_insert_ne, lookup_insert_eq by done.
    rewrite lookup_insert_eq. split; reflexivity.
  - rewrite Htable, filterTableSchema_sources. apply Forall2_map_r_eq.
    intros n k _. unfold tableItem. rewrite lookup_union.
    destruct (props n !! k) as [v|]; simpl.
    + by destruct (spread (get (props n) "table") !! k).
    + by destruct (spread (get (props n) "table") !! k).
Qed.

(** C2 (as amended).  The columns of [tableColumns], listed in pre-order, are
    the merged records of the exposed nodes: those that, like all their
    ancestors, are not hidden by [table.show === false] and carry a truthy
    [field] after merging.  No column of the output lacks a [field]. *)
Theorem C2_table_keeps_the_exposed_nodes (tree : list CrudSchema) :
  flatten (filterTableSchema tree) = map tableItem (table_sources tree)
  ∧ (∀ n, In n (table_sources tree) ↔ exposed tree n)
  ∧ Forall (fun c => truthy (get c "field") = true)
      (flatten (filterTableSchema tree)).
Proof.
  split; [apply filterTableSchema_sources|].
  split; [apply table_sources_exposed|].
  rewrite filterTableSchema_sources. apply Forall_forall. intros c Hc.
  apply list_elem_of_In, in_map_iff in Hc as (n & <- & Hn).
  apply table_sources_exposed, exposed_kept in Hn.
  unfold table_kept in Hn. by apply andb_prop in Hn as [_ Hn].
Qed.

(** The statements above at [Samples.sample_tree]. *)

Lemma sample_run_ok :
  useCrudSchemas Samples.upper_t Samples.sample_tree Samples.sample_dict
  = Ok (Samples.sample_all, Samples.sample_tasks, Samples.sample_dict_after).
Proof. reflexivity. Defined.

Lemma C1_witness :
  let shown := List.filter search_show (preorder Samples.sample_tree) in
  (∀ n, In n (preorder Samples.sample_tree) →
     let show := opt_prop (get (props n) "search") "show" in
     (show = VBool true → In n shown)
     ∧ (show = VUndef ∨ show = VBool false → ¬ In n shown))
  ∧ (∀ n, In n shown →
       ∃ r, In r (searchSchema Samples.sample_all) ∧ search_record_of n r)
  ∧ (∀ r, In r (searchSchema Samples.sample_all) →
       ∃ n, In n shown ∧ search_record_of n r)
  ∧ length (searchSchema Samples.sample_all) = length shown.
Proof.
  exact (C1_search_lists_the_shown_nodes Samples.upper_t Samples.sample_tree
           Samples.sample_dict Samples.sample_dict_after Samples.sample_all
           Samples.sample_tasks sample_run_ok).
Defined.

Lemma C8_witness :
  Forall2 search_record_of
    (List.filter search_show (preorder Samples.sample_tree))
    (searchSchema Samples.sample_all)
  ∧ formSchema Samples.sample_all
    = map (fun n => delete "show" (formSchemaItem n))
          (List.filter form_show (preorder Samples.sample_tree))
  ∧ detailSchema Samples.sample_all
    = map (fun n => delete "show" (descriptionsSchemaItem n))
          (List.filter detail_show (preorder Samples.sample_tree)).
Proof.
  exact (C8_flat_projections_in_preorder Samples.upper_t Samples.sample_tree
           Samples.sample_dict Samples.sample_dict_after Samples.sample_all
           Samples.sample_tasks sample_run_ok).
Defined.

Lemma C7_witness :
  Forall2 keeps_identity
    (List.filter search_show (preorder Samples.sample_tree))
    (searchSchema Samples.sample_all)
  ∧ Forall2 keeps_identity
      (List.filter form_show (preorder Samples.sample_tree))
      (formSchema Samples.sample_all)
  ∧ Forall2 keeps_identity
      (List.filter detail_show (preorder Samples.sample_tree))
      (detailSchema Samples.sample_all)
  ∧ Forall2 (fun n c =>
               ∀ k, k = "field" ∨ k = "label" →
                    c !! k = match props n !! k with
                             | Some v => Some v
                             | None => spread (get (props n) "table") !! k
                             end)
      (table_sources Samples.sample_tree)
      (flatten (tableColumns Samples.sample_all)).
Proof.
  exact (C7_identity_of_projected_records Samples.upper_t Samples.sample_tree
           Samples.sample_dict Samples.sample_dict_after Samples.sample_all
           Samples.sample_tasks sample_run_ok).
Defined.


(** At [{field:"p", table:{show:false}, children:[{field:"c"}]}] the child is
    not hidden and has a [field], yet [tableColumns] is empty: membership in
    the output is not decided by the node alone. *)
Lemma C2_counterexample :
  ¬ (∀ n, In n (preorder [Samples.hidden_parent]) →
          (In (tableItem n) (flatten (filterTableSchema [Samples.hidden_parent]))
           ↔ table_show n = true ∧ truthy (get (tableItem n) "field") = true)).
Proof.
  intros H.
  assert (In Samples.plain_child (preorder [Samples.hidden_parent])) as Hin
    by (right; left; reflexivity).
  destruct (H _ Hin) as [_ Hback].
  assert (filterTableSchema [Samples.hidden_parent] = []) as E by reflexivity.
  rewrite E in Hback. apply Hback. split; reflexivity.
Qed.

(** At [{field:"id", table:{label:"ID"}}] the column carries the label of the
    table block, while the node has none. *)
Lemma C7_counterexample :
  ¬ Forall2 keeps_identity
      (table_sources [Samples.id_node])
      (flatten (filterTableSchema [Samples.id_node])).
Proof.
  intros H.
  assert (table_sources [Samples.id_node] = [Samples.id_node]) as E1
    by reflexivity.
  assert (flatten (filterTableSchema [Samples.id_node])
          = [tableItem Samples.id_node]) as E2 by reflexivity.
  rewrite E1, E2 in H. inversion H as [|? ? ? ? [_ Hlabel] _]; subst.
  vm_compute in Hlabel. discriminate Hlabel.
Qed.

(** ** The numbers [toAnyString] prints *)

Lemma trunc_draw (x : Q) :
  (0 <= x)%Q → (x < 1)%Q → 0 ≤ AnyString.trunc (x * 16) < 16.
Proof.
  destruct x as [n d]. unfold Qle, Qlt, AnyString.trunc. simpl.
  intros Hlo Hhi.
  rewrite Z.quot_div_nonneg by lia. split.
  - apply Z.div_pos; lia.
  - apply Z.div_lt_upper_bound; lia.
Qed.

Lemma to_int32_small (z : Z) : 0 ≤ z < 16 → AnyString.to_int32 z = z.
Proof.
  intros H. unfold AnyString.to_int32. rewrite Z.mod_small; lia.
Qed.

(** For a draw in [[0,1)] the value handed to [toString] is the right one, an
    integer below 16 at an [x] and one of 8, 9, 10, 11 at the [y]; only its
    printing is decimal. *)
Lemma replacer_values (random : nat → Q) (k : nat) :
  (0 <= random k)%Q → (random k < 1)%Q →
  ∃ r, 0 ≤ r < 16
       ∧ AnyString.replacer random "x" k = AnyString.toString r
       ∧ AnyString.replacer random "y" k
         = AnyString.toString (Z.lor (Z.land r 3) 8)
       ∧ 8 ≤ Z.lor (Z.land r 3) 8 ≤ 11.
Proof.
  intros Hlo Hhi. pose proof (trunc_draw _ Hlo Hhi) as Hr.
  exists (AnyString.trunc (random k * 16)). split; [exact Hr|].
  unfold AnyString.replacer. rewrite (to_int32_small _ Hr), Z.lor_0_r.
  split; [reflexivity|]. split; [reflexivity|].
  set (r := AnyString.trunc (random k * 16)) in *.
  assert (r = 0 ∨ r = 1 ∨ r = 2 ∨ r = 3 ∨ r = 4 ∨ r = 5 ∨ r = 6 ∨ r = 7
          ∨ r = 8 ∨ r = 9 ∨ r = 10 ∨ r = 11 ∨ r = 12 ∨ r = 13 ∨ r = 14
          ∨ r = 15) as Hcases by lia.
  repeat (destruct Hcases as [->|Hcases]; [vm_compute; split; discriminate|]).
  subst r. rewrite Hcases. vm_compute. split; discriminate.
Qed.

(** ** The end-to-end example of the specification *)

Example end_to_end_name_node :
  ∃ all record column,
    useCrudSchemas Samples.upper_t [Samples.name_node] ∅ = Ok (all, [], ∅)
    ∧ searchSchema all = [record]
    ∧ get record "field" = VStr "name"
    ∧ get record "component" = VStr "input"
    ∧ record !! "show" = None
    ∧ tableColumns all = [column]
    ∧ cchildren column = None
    ∧ get (cprops column) "field" = VStr "name"
    ∧ map (fun r => get r "field") (formSchema all) = [VStr "name"]
    ∧ map (fun r => get r "field") (detailSchema all) = [VStr "name"].
Proof. do 3 eexists. repeat split; reflexivity. Qed.

(** ** The case conversions *)

Section CaseConversions.

Local Ltac every_unit c := destruct c as [[] [] [] [] [] [] [] []].

Lemma lower_of_capital (c : ascii) :
  Str.is_upper c = true →
  Str.is_word (Str.lower_char c) = true
  ∧ Samples.upper_char (Str.lower_char c) = c
  ∧ Str.is_upper (Str.lower_char c) = false
  ∧ Ascii.eqb (Str.lower_char c) "-" = false.
Proof. every_unit c; vm_compute; intros H; try discriminate H; auto. Qed.


Lemma lower_fixed_not_capital (c : ascii) :
  Ascii.eqb (Str.lower_char c) c = true → Str.is_upper c = false.
Proof. every_unit c; vm_compute; intros H; try discriminate H; auto. Qed.

Lemma word_raised (d : ascii) :
  Str.is_word d = true → Ascii.eqb (Samples.upper_char d) d = false →
  Str.is_upper (Samples.upper_char d) = true
  ∧ Str.lower_char (Samples.upper_char d) = d.
Proof.
  every_unit d; vm_compute; intros H1 H2;
    try discriminate H1; try discriminate H2; auto.
Qed.

Lemma hyphen_not_word : Str.is_word "-" = false.
Proof. reflexivity. Qed.

Lemma substring_0_0 (s : string) : substring 0 0 s = "".
Proof. destruct s; reflexivity. Qed.

(** The scan of [underlineToHump], unit by unit. *)
Lemma underlineToHump_nil : Str.underlineToHump "" = "".
Proof. reflexivity. Qed.

Lemma hyphen_word_flag (b : bool) (s : string) :
  Str.replace_from Str.hyphen_word Str.upper_letter b 0 s
  = Str.underlineToHump s.
Proof. destruct s; reflexivity. Qed.

Lemma underlineToHump_pair (d : ascii) (r : string) :
  Str.is_word d = true →
  Str.underlineToHump (String "-" (String d r))
  = String (Samples.upper_char d) (Str.underlineToHump r).
Proof.
  intros Hd. unfold Str.underlineToHump, Str.replace_g.
  cbn [Str.replace_from Str.hyphen_word]. rewrite Hd.
  cbn [substring Str.upper_letter Samples.toUpperCase].
  rewrite substring_0_0. cbn [Samples.toUpperCase append].
  rewrite hyphen_word_flag. reflexivity.
Qed.

Lemma underlineToHump_copy (c : ascii) (r : string) :
  (Ascii.eqb c "-" && Str.head_word r)%bool = false →
  Str.underlineToHump (String c r) = String c (Str.underlineToHump r).
Proof.
  intros H. unfold Str.underlineToHump, Str.replace_g.
  cbn [Str.replace_from].
  assert (Str.hyphen_word true (String c r) = None) as ->.
  { unfold Str.hyphen_word. destruct (Ascii.eqb_spec c "-") as [->|Hne].
    - simpl in H. destruct r as [|d r]; [reflexivity|].
      simpl in H. rewrite H. reflexivity.
    - every_unit c; try reflexivity. destruct Hne. reflexivity. }
  rewrite hyphen_word_flag. reflexivity.
Qed.

(** The scan of [humpToUnderline], unit by unit. *)
Lemma capital_flag (b : bool) (s : string) :
  Str.replace_from Str.capital Str.hyphen_before b 0 s
  = Str.replace_g Str.capital Str.hyphen_before s.
Proof. destruct s; reflexivity. Qed.

Lemma humpToUnderline_cons (c : ascii) (r : string) :
  Str.humpToUnderline (String c r)
  = if Str.is_upper c
    then String "-" (String (Str.lower_char c) (Str.humpToUnderline r))
    else String (Str.lower_char c) (Str.humpToUnderline r).
Proof.
  unfold Str.humpToUnderline, Str.replace_g.
  cbn [Str.replace_from Str.capital]. destruct (Str.is_upper c).
  - cbn [substring]. rewrite substring_0_0.
    cbn [Str.hyphen_before append Str.toLowerCase].
    rewrite capital_flag. reflexivity.
  - cbn [Str.toLowerCase]. rewrite capital_flag. reflexivity.
Qed.

Lemma head_word_humpToUnderline (d : ascii) (r : string) :
  (Str.is_upper d || Ascii.eqb (Str.lower_char d) d)%bool = true →
  (Str.is_word d && negb (Str.is_upper d))%bool = false →
  Str.head_word (Str.humpToUnderline (String d r)) = false.
Proof.
  rewrite humpToUnderline_cons. destruct (Str.is_upper d) eqn:Hu; simpl.
  - reflexivity.
  - intros Hfix Hw. apply Ascii.eqb_eq in Hfix. rewrite Hfix.
    by rewrite andb_true_r in Hw.
Qed.

End CaseConversions.

Section RoundTrips.

(** X3.  [underlineToHump] undoes [humpToUnderline] on a text in which
    [toLowerCase] changes nothing but [A-Z] and no hyphen stands before a
    unit of [[a-z0-9_]]. *)
Theorem X3_hump_round_trip (s : string) :
  Str.camel_text s = true →
  Str.underlineToHump (Str.humpToUnderline s) = s.
Proof.
  induction s as [|c r IH]; [reflexivity|].
  cbn [Str.camel_text]. intros H.
  apply andb_prop in H as [H Hr]. apply andb_prop in H as [Hc Hnext].
  rewrite humpToUnderline_cons. destruct (Str.is_upper c) eqn:Hu.
  - destruct (lower_of_capital c Hu) as (Hw & Hup & _ & _).
    rewrite underlineToHump_pair by exact Hw. rewrite Hup, (IH Hr). reflexivity.
  - simpl in Hc. apply Ascii.eqb_eq in Hc. rewrite Hc.
    rewrite underlineToHump_copy; [by rewrite (IH Hr)|].
    destruct (Ascii.eqb c "-") eqn:Hhyphen; [|reflexivity].
    destruct r as [|d r']; [reflexivity|].
    cbn [Str.camel_text] in Hr.
    apply andb_prop in Hr as [Hr _]. apply andb_prop in Hr as [Hd _].
    simpl in Hnext. apply negb_true_iff in Hnext.
    simpl. apply head_word_humpToUnderline; assumption.
Qed.

Lemma humpToUnderline_underlineToHump_bounded (n : nat) (s : string) :
  (String.length s ≤ n)%nat →
  Str.kebab_text s = true →
  Str.humpToUnderline (Str.underlineToHump s) = s.
Proof.
  revert s. induction n as [|n IH]; intros s Hlen.
  - destruct s; [reflexivity | simpl in Hlen; lia].
  - destruct s as [|c r]; [reflexivity|].
    cbn [Str.kebab_text]. intros H.
    apply andb_prop in H as [H Hr]. apply andb_prop in H as [Hc Hnext].
    simpl in Hlen.
    destruct (Ascii.eqb c "-" && Str.head_word r)%bool eqn:E.
    + apply andb_prop in E as [Hhyphen Hhead].
      apply Ascii.eqb_eq in Hhyphen. subst c.
      destruct r as [|d r']; [discriminate Hhead|]. simpl in Hhead.
      rewrite underlineToHump_pair by exact Hhead.
      simpl in Hnext. rewrite Hhead in Hnext. simpl in Hnext.
      apply negb_true_iff in Hnext.
      destruct (word_raised d Hhead Hnext) as [Hup Hlow].
      rewrite humpToUnderline_cons, Hup, Hlow.
      cbn [Str.kebab_text] in Hr. apply andb_prop in Hr as [_ Hr'].
      simpl in Hlen. rewrite (IH r'); [reflexivity | lia | exact Hr'].
    + rewrite underlineToHump_copy by exact E.
      rewrite humpToUnderline_cons, (lower_fixed_not_capital c Hc).
      apply Ascii.eqb_eq in Hc. rewrite Hc.
      rewrite (IH r); [reflexivity | lia | exact Hr].
Qed.

(** X4.  [humpToUnderline] undoes [underlineToHump] on a text without
    capitals in which no hyphen stands before a digit or an underscore. *)
Theorem X4_underline_round_trip (s : string) :
  Str.kebab_text s = true →
  Str.humpToUnderline (Str.underlineToHump s) = s.
Proof. apply (humpToUnderline_underlineToHump_bounded (String.length s)). lia. Qed.


End RoundTrips.

(** ** [trim] *)

Section Trim.

Lemma skip_to_end (r : string) :
  Str.replace_from Str.blank_edge (fun _ : string => EmptyString) false
    (String.length r) r
  = "".
Proof.
  induction r as [|c r IH]; [reflexivity|]. simpl. exact IH.
Qed.

Lemma scan_inner (s : string) :
  Str.replace_from Str.blank_edge (fun _ : string => EmptyString) false 0 s = Str.drop_trailing s.
Proof.
  induction s as [|c r IH]; [reflexivity|].
  cbn [Str.replace_from Str.drop_trailing Str.blank_edge].
  destruct (Str.all_of Str.is_space (String c r)) eqn:E.
  - cbn [String.length String.append]. apply skip_to_end.
  - rewrite IH. reflexivity.
Qed.

Lemma skip_leading (r : string) :
  Str.replace_from Str.blank_edge (fun _ : string => EmptyString) false (Str.span Str.is_space r) r
  = Str.drop_trailing (Str.drop_leading r).
Proof.
  induction r as [|d r IH]; [reflexivity|].
  cbn [Str.span Str.drop_leading]. destruct (Str.is_space d) eqn:Hd.
  - cbn [Str.replace_from]. exact IH.
  - apply scan_inner.
Qed.

Lemma trim_drop (s : string) :
  Str.trim s = Str.drop_trailing (Str.drop_leading s).
Proof.
  unfold Str.trim, Str.replace_g. destruct s as [|c r]; [reflexivity|].
  cbn [Str.replace_from Str.blank_edge Str.span Str.drop_leading].
  destruct (Str.is_space c) eqn:Hc.
  - cbn [String.append]. apply skip_leading.
  - cbn [String.append]. rewrite scan_inner.
    cbn [Str.drop_trailing Str.all_of]. rewrite Hc. reflexivity.
Qed.

Lemma all_of_app (p : ascii → bool) (a b : string) :
  Str.all_of p (a ++ b) = (Str.all_of p a && Str.all_of p b)%bool.
Proof.
  induction a as [|c a IH]; [reflexivity|]. simpl. rewrite IH.
  by rewrite andb_assoc.
Qed.

Lemma drop_leading_blank (a s : string) :
  Str.all_of Str.is_space a = true →
  Str.drop_leading (a ++ s) = Str.drop_leading s.
Proof.
  induction a as [|c a IH]; [reflexivity|]. simpl. intros H.
  apply andb_prop in H as [-> Ha]. exact (IH Ha).
Qed.

Lemma drop_trailing_blank (b : string) :
  Str.all_of Str.is_space b = true → Str.drop_trailing b = "".
Proof. destruct b as [|c b]; [reflexivity|]. simpl. by intros ->. Qed.

Lemma not_blank_last (c : ascii) (r b : string) :
  Str.is_space (Str.last_char c r) = false →
  Str.all_of Str.is_space (String c r ++ b) = false.
Proof.
  revert c. induction r as [|d r IH]; intros c H; simpl in *.
  - by rewrite H.
  - rewrite (IH d H). apply andb_false_r.
Qed.

Lemma drop_trailing_last (c : ascii) (r b : string) :
  Str.is_space (Str.last_char c r) = false →
  Str.all_of Str.is_space b = true →
  Str.drop_trailing (String c r ++ b) = String c r.
Proof.
  revert c. induction r as [|d r IH]; intros c H Hb.
  - simpl in *. rewrite H. simpl. by rewrite drop_trailing_blank.
  - pose proof (not_blank_last c (String d r) b H) as E.
    change (String c (String d r) ++ b) with (String c (String d r ++ b)) in *.
    cbn [Str.drop_trailing]. rewrite E. f_equal. apply (IH d); assumption.
Qed.

Lemma drop_leading_result (s : string) :
  match Str.drop_leading s with
  | String c _ => Str.is_space c = false
  | EmptyString => True
  end.
Proof.
  induction s as [|c r IH]; [exact I|]. simpl.
  destruct (Str.is_space c) eqn:E; [exact IH | exact E].
Qed.

Lemma last_drop_trailing (s : string) (x : ascii) :
  Str.all_of Str.is_space s = false →
  Str.is_space (Str.last_char x (Str.drop_trailing s)) = false.
Proof.
  revert x. induction s as [|y s IH]; intros x E; [discriminate E|].
  cbn [Str.drop_trailing]. rewrite E. cbn [Str.last_char].
  cbn [Str.all_of] in E.
  destruct (Str.all_of Str.is_space s) eqn:Es.
  - rewrite (drop_trailing_blank s Es). simpl.
    by rewrite andb_true_r in E.
  - apply IH. reflexivity.
Qed.

Lemma trim_tight (s : string) : Str.tight (Str.trim s) = true.
Proof.
  rewrite trim_drop. pose proof (drop_leading_result s) as H.
  destruct (Str.drop_leading s) as [|c r]; [reflexivity|].
  cbn [Str.drop_trailing Str.all_of]. rewrite H. cbn [andb Str.tight].
  rewrite H. cbn [negb andb]. apply negb_true_iff.
  destruct (Str.all_of Str.is_space r) eqn:Er.
  - rewrite (drop_trailing_blank r Er). exact H.
  - apply last_drop_trailing. exact Er.
Qed.

Lemma trim_strips (a core b : string) :
  Str.all_of Str.is_space a = true →
  Str.all_of Str.is_space b = true →
  Str.tight core = true →
  Str.trim (a ++ core ++ b) = core.
Proof.
  intros Ha Hb Hcore. rewrite trim_drop, (drop_leading_blank a _ Ha).
  destruct core as [|c r].
  - change ("" ++ b) with b.
    pose proof (drop_leading_blank b "" Hb) as E.
    assert (b ++ "" = b) as Eb
      by (clear; induction b as [|x b IHb]; [reflexivity|];
          change (String x b ++ "") with (String x (b ++ "")); by rewrite IHb).
    rewrite Eb in E. rewrite E. reflexivity.
  - cbn [Str.tight] in Hcore. apply andb_prop in Hcore as [Hc Hlast].
    apply negb_true_iff in Hc, Hlast.
    change (String c r ++ b) with (String c (r ++ b)).
    cbn [Str.drop_leading]. rewrite Hc.
    apply (drop_trailing_last c r b Hlast Hb).
Qed.

Lemma trim_idempotent (s : string) : Str.trim (Str.trim s) = Str.trim s.
Proof.
  pose proof (trim_strips "" (Str.trim s) "" eq_refl eq_refl (trim_tight s)) as H.
  change ("" ++ (Str.trim s ++ "")) with (Str.trim s ++ "") in H.
  assert (∀ u : string, u ++ "" = u) as E
    by (clear; induction u as [|x u IHu]; [reflexivity|];
        change (String x u ++ "") with (String x (u ++ "")); by rewrite IHu).
  rewrite E in H. exact H.
Qed.

End Trim.

(** ** More about the search projector *)

Section SearchMore.

Variable t : value → value.

Lemma translate_all_inv (lf : value) (l l' : list value) :
  translate_all t lf l = Ok l' →
  ∃ recs : list obj,
    l = VObj <$> recs ∧ l' = VObj <$> map (translate_record t lf) recs.
Proof.
  revert l'. induction l as [|x l IH]; intros l'; simpl.
  - intros [= <-]. exists []. split; reflexivity.
  - destruct x as [| | | | | |v|]; try discriminate.
    destruct (translate_all t lf l) as [r'|e]; [|discriminate].
    intros [= <-]. destruct (IH _ eq_refl) as (recs & -> & ->).
    exists (v :: recs). split; reflexivity.
Qed.

Lemma filterOptions_inv (lf v opts : value) :
  filterOptions t v lf = Ok opts →
  ∃ recs : list obj,
    v = VArr (VObj <$> recs)
    ∧ opts = VArr (VObj <$> map (translate_record t lf) recs).
Proof.
  unfold filterOptions. destruct v as [| | | | |l| |]; try discriminate.
  destruct (translate_all t lf l) as [l'|e] eqn:E; [|discriminate].
  intros [= <-]. destruct (translate_all_inv _ _ _ E) as (recs & -> & ->).
  exists recs. split; reflexivity.
Qed.

Lemma records_inj (l l' : list obj) : VObj <$> l = VObj <$> l' → l = l'.
Proof.
  revert l'. induction l as [|x l IH]; intros [|y l']; try discriminate.
  - reflexivity.
  - rewrite !fmap_cons. intros [= -> H]. by rewrite (IH _ H).
Qed.

Lemma get_array_lookup (o : obj) (k : string) (l : list value) :
  get o k = VArr l → o !! k = Some (VArr l).
Proof. unfold get. destruct (o !! k); [by intros -> | discriminate]. Qed.

(** Everything [enrich] does, by cases. *)
Lemma enrich_inv (item item' : obj) (s s' : SearchState) :
  enrich t item s = Ok (item', s') →
  searchSchema_acc s' = searchSchema_acc s
  ∧ ((∃ d recs cp,
        truthy (get item "dictName") = true
        ∧ get item "dictName" = VStr d
        ∧ getDictObj s !! d = Some (VArr (VObj <$> recs))
        ∧ get item "componentProps" = VObj cp
        ∧ getDictObj s'
          = <[d := VArr (VObj <$> map (translate_record t VUndef) recs)]>
              (getDictObj s)
        ∧ searchRequestTask s' = searchRequestTask s
        ∧ item'
          = <["componentProps" :=
                VObj (<["options" :=
                          VArr (VObj <$> map (translate_record t VUndef) recs)]>
                        cp)]> item)
     ∨ (truthy (get item "dictName") = false
        ∧ getDictObj s' = getDictObj s
        ∧ item' = item
        ∧ searchRequestTask s'
          = (searchRequestTask s
               ++ if truthy (get item "api")
                  then [{| scheduler := length (searchSchema_acc s) |}]
                  else [])%list)).
Proof.
  unfold enrich. destruct (truthy (get item "dictName")) eqn:Hd.
  - unfold bind, gets, lift, store_dict, modify, ret.
    destruct (filterOptions t _ VUndef) as [opts|e] eqn:E; [|discriminate].
    destruct (filterOptions_inv _ _ _ E) as (recs & Hentry & ->).
    destruct (get item "dictName") as [| | | |d| | |] eqn:Hname;
      try discriminate Hentry.
    destruct (get item "componentProps") as [| | | | | |cp|] eqn:Ecp;
      try discriminate.
    simpl. intros [= <- <-]. simpl. split; [reflexivity|]. left.
    exists d, recs, cp. simpl in Hentry.
    repeat split; try reflexivity. by apply get_array_lookup.
  - destruct (truthy (get item "api")).
    + unfold bind, push_task, modify, ret. intros [= <- <-]. simpl.
      split; [reflexivity|]. right. auto.
    + unfold ret. intros [= <- <-]. split; [reflexivity|]. right.
      rewrite app_nil_r. auto.
Qed.

(** One visit: the record pushed, the task scheduled, the entry translated. *)
Lemma searchVisitor_inv (n : CrudSchema) (s s' : SearchState) :
  searchVisitor t n s = Ok (tt, s') →
  (∃ recs,
     searchSchema_acc s' = (searchSchema_acc s ++ recs)%list
     ∧ Forall2 search_record_of (if search_show n then [n] else []) recs)
  ∧ searchRequestTask s'
    = (searchRequestTask s
         ++ if schedules n
            then [{| scheduler := length (searchSchema_acc s) |}]
            else [])%list
  ∧ (∀ d, names d n = false → getDictObj s' !! d = getDictObj s !! d)
  ∧ (∀ d recs, getDictObj s !! d = Some (VArr (VObj <$> recs)) →
       getDictObj s' !! d
       = Some (VArr (VObj <$> if names d n
                              then map (translate_record t VUndef) recs
                              else recs)))
  ∧ (∀ d, is_Some (getDictObj s' !! d) ↔ is_Some (getDictObj s !! d))
  ∧ (search_show n = true →
     truthy (get (searchSchemaItem n) "dictName") = true →
     ∃ l, index_by (getDictObj s) (get (searchSchemaItem n) "dictName") = VArr l).
Proof.
  unfold searchVisitor, schedules, names.
  destruct (search_show n) eqn:Hshow.
  2:{ intros [= <-]. rewrite app_nil_r. simpl.
      repeat split; auto; try discriminate.
      exists []. rewrite app_nil_r. split; [reflexivity | constructor]. }
  unfold bind.
  destruct (enrich t (searchSchemaItem n) s) as [[item s1]|e] eqn:E; [|discriminate].
  unfold push_search, modify. intros [= <-]. simpl.
  destruct (enrich_inv _ _ _ _ E) as (Hacc & Hcases).
  assert (∃ recs, (searchSchema_acc s1
                     ++ [delete "dictName" (delete "show" item)])%list
                  = (searchSchema_acc s ++ recs)%list
                  ∧ Forall2 search_record_of [n] recs) as Hrec.
  { exists [delete "dictName" (delete "show" item)]. rewrite Hacc.
    split; [reflexivity|]. constructor; [|constructor].
    destruct Hcases as [(d & recs & cp & _ & _ & _ & _ & _ & _ & ->)
                       |(_ & _ & -> & _)].
    - eexists. rewrite !delete_insert_ne by done. reflexivity.
    - destruct (searchSchemaItem_componentProps n) as [cp0 Hcp0].
      exists cp0. rewrite insert_id; [reflexivity|].
      by rewrite !lookup_delete_ne. }
  split; [exact Hrec|].
  destruct Hcases as [(d & recs & cp & Htruthy & Hname & Hentry & _ & Hdict & Htasks & _)
                     |(Hfalsy & Hdict & _ & Htasks)].
  - rewrite Htruthy, Hname, Hdict, Htasks. simpl. rewrite app_nil_r.
    assert (String.eqb d "" = false) as Hd.
    { rewrite Hname in Htruthy. simpl in Htruthy.
      by apply negb_true_iff in Htruthy. }
    rewrite Hd. simpl.
    split; [reflexivity|]. split; [|split; [|split; [|]]].
    + intros d' Hne. apply String.eqb_neq in Hne.
      by rewrite lookup_insert_ne.
    + intros d' recs' Hd'. destruct (String.eqb_spec d d') as [<-|Hne].
      * rewrite lookup_insert_eq. rewrite Hentry in Hd'.
        injection Hd' as Hd'. apply records_inj in Hd'. by subst recs'.
      * by rewrite lookup_insert_ne.
    + intros d'. destruct (decide (d = d')) as [<-|Hne].
      * rewrite lookup_insert_eq, Hentry. split; eauto.
      * by rewrite lookup_insert_ne.
    + intros _ _. exists (VObj <$> recs). unfold index_by, get.
      by rewrite Hentry.
  - rewrite Hfalsy, Hdict, Htasks. simpl.
    split; [reflexivity|]. split; [auto|]. split; [|split; [reflexivity|]].
    + intros d recs Hd.
      destruct (get (searchSchemaItem n) "dictName") as [| | | |x| | |];
        try exact Hd.
      simpl in Hfalsy. apply negb_false_iff in Hfalsy. rewrite Hfalsy.
      exact Hd.
    + intros _ Habs. discriminate Habs.
Qed.

End SearchMore.

Section SearchRuns.

Variable t : value → value.

Lemma forEach_searchVisitor_tasks (l : list CrudSchema) (s s' : SearchState) :
  forEach (searchVisitor t) l s = Ok (tt, s') →
  ∃ recs tks,
    searchSchema_acc s' = (searchSchema_acc s ++ recs)%list
    ∧ searchRequestTask s' = (searchRequestTask s ++ tks)%list
    ∧ Forall2 (fun n tk =>
                 ∃ r, (searchSchema_acc s ++ recs)%list !! scheduler tk = Some r
                      ∧ search_record_of n r)
        (List.filter schedules l) tks.
Proof.
  revert s. induction l as [|n l IH]; intros s; simpl.
  - intros [= <-]. exists [], []. rewrite !app_nil_r.
    repeat split. constructor.
  - unfold bind.
    destruct (searchVisitor t n s) as [[[] s1]|e] eqn:E; [|discriminate].
    intros Hrest.
    destruct (searchVisitor_inv t _ _ _ E) as ((recs1 & Hacc1 & Hrecs1) & Htk1 & _).
    destruct (IH _ Hrest) as (recs & tks & Hacc & Htks & Hall).
    rewrite Hacc1 in Hacc, Hall. rewrite <- app_assoc in Hacc, Hall.
    rewrite Htk1, <- app_assoc in Htks.
    exists (recs1 ++ recs)%list. eexists. split; [exact Hacc|].
    split; [exact Htks|].
    destruct (schedules n) eqn:Hn; [|exact Hall].
    constructor; [|exact Hall]. simpl.
    assert (search_show n = true) as Hshow.
    { unfold schedules in Hn. apply andb_prop in Hn as [Hn _].
      by apply andb_prop in Hn as [Hn _]. }
    rewrite Hshow in Hrecs1.
    inversion Hrecs1 as [|? r ? ? Hr Hnil]; subst. inversion Hnil; subst.
    exists r. split; [|exact Hr].
    rewrite lookup_app_r by lia. by rewrite Nat.sub_diag.
Qed.

Lemma forEach_searchVisitor_dict (l : list CrudSchema) (s s' : SearchState) :
  forEach (searchVisitor t) l s = Ok (tt, s') →
  (∀ d, Forall (fun n => names d n = false) l →
        getDictObj s' !! d = getDictObj s !! d)
  ∧ (∀ d recs, getDictObj s !! d = Some (VArr (VObj <$> recs)) →
       getDictObj s' !! d
       = Some (VArr (VObj <$>
                 Nat.iter (length (List.filter (names d) l))
                   (map (translate_record t VUndef)) recs)))
  ∧ (∀ d, is_Some (getDictObj s' !! d) ↔ is_Some (getDictObj s !! d)).
Proof.
  revert s. induction l as [|n l IH]; intros s; simpl.
  - intros [= <-]. repeat split; auto.
  - unfold bind.
    destruct (searchVisitor t n s) as [[[] s1]|e] eqn:E; [|discriminate].
    intros Hrest.
    destruct (searchVisitor_inv t _ _ _ E) as (_ & _ & Hframe1 & Htr1 & Hdom1 & _).
    destruct (IH _ Hrest) as (Hframe & Htr & Hdom).
    split; [|split].
    + intros d Hall. inversion Hall as [|? ? Hn Hl]; subst.
      rewrite (Hframe d Hl). apply Hframe1. exact Hn.
    + intros d recs Hd. rewrite (Htr d _ (Htr1 d recs Hd)).
      destruct (names d n); [|reflexivity].
      cbn [length]. by rewrite Nat.iter_succ_r.
    + intros d. rewrite Hdom. apply Hdom1.
Qed.

Lemma forEach_searchVisitor_entries (l : list CrudSchema) (s s' : SearchState) :
  forEach (searchVisitor t) l s = Ok (tt, s') →
  Forall (fun n =>
            search_show n = true →
            truthy (get (searchSchemaItem n) "dictName") = true →
            ∃ a, index_by (getDictObj s) (get (searchSchemaItem n) "dictName")
                 = VArr a) l.
Proof.
  revert s. induction l as [|n l IH]; intros s; simpl; [constructor|].
  unfold bind.
  destruct (searchVisitor t n s) as [[[] s1]|e] eqn:E; [|discriminate].
  intros Hrest.
  destruct (searchVisitor_inv t _ _ _ E) as (_ & _ & Hframe1 & _ & _ & Hentry1).
  constructor; [exact Hentry1|].
  eapply Forall_impl; [exact (IH _ Hrest)|]. simpl.
  intros m Hm Hshow Htruthy. destruct (Hm Hshow Htruthy) as [a Ha].
  destruct (get (searchSchemaItem m) "dictName") as [| | | |d| | |] eqn:Hname;
    try discriminate Ha.
  destruct (names d n) eqn:Hn.
  - unfold names in Hn. apply andb_prop in Hn as [Hshown Hn].
    destruct (get (searchSchemaItem n) "dictName") as [| | | |x| | |] eqn:Hx;
      try discriminate Hn.
    apply andb_prop in Hn as [Hne Heq]. apply String.eqb_eq in Heq. subst x.
    apply Hentry1; [exact Hshown|]. simpl. exact Hne.
  - exists a. simpl in *. unfold get in *. by rewrite <- (Hframe1 d Hn).
Qed.

Lemma filterSearchSchema_run (tree : list CrudSchema) (dict dict' : obj)
    (out : list obj) (tasks : list Task) :
  filterSearchSchema t tree dict = Ok (out, tasks, dict') →
  forEach (searchVisitor t) (preorder tree)
    {| getDictObj := dict; searchSchema_acc := []; searchRequestTask := [] |}
  = Ok (tt, {| getDictObj := dict'; searchSchema_acc := out;
               searchRequestTask := tasks |}).
Proof.
  unfold filterSearchSchema. rewrite eachTree_preorder.
  destruct (forEach _ _ _) as [[[] [d a k]]|e]; [|discriminate].
  by intros [= <- <- <-].
Qed.

(** X12.  The tasks a run starts are those of the shown nodes with a truthy
    [api] and no truthy [dictName], in pre-order, and each points at the
    record of its node in [searchSchema]. *)
Theorem X12_tasks_of_the_run (tree : list CrudSchema) (dict dict' : obj)
    (all : AllSchemas) (tasks : list Task) :
  useCrudSchemas t tree dict = Ok (all, tasks, dict') →
  Forall2 (fun n tk =>
             ∃ r, searchSchema all !! scheduler tk = Some r
                  ∧ search_record_of n r)
    (List.filter schedules (preorder tree)) tasks.
Proof.
  intros Hrun. destruct (useCrudSchemas_inv _ _ _ _ _ _ Hrun) as (Hsearch & _).
  apply filterSearchSchema_run in Hsearch.
  destruct (forEach_searchVisitor_tasks _ _ _ Hsearch)
    as (recs & tks & Hacc & Htks & Hall).
  simpl in *. subst. exact Hall.
Qed.

(** X13.  The engine translates the records of the dictionary in place: after
    the run an entry has been translated once for every shown node that
    names it, so twice when two nodes share it. *)
Theorem X13_dictionary_translated_per_lookup (tree : list CrudSchema)
    (dict dict' : obj) (all : AllSchemas) (tasks : list Task)
    (d : string) (recs : list obj) :
  useCrudSchemas t tree dict = Ok (all, tasks, dict') →
  dict !! d = Some (VArr (VObj <$> recs)) →
  dict' !! d
  = Some (VArr (VObj <$>
            Nat.iter (length (List.filter (names d) (preorder tree)))
              (map (translate_record t VUndef)) recs)).
Proof.
  intros Hrun Hd. destruct (useCrudSchemas_inv _ _ _ _ _ _ Hrun) as (Hsearch & _).
  apply filterSearchSchema_run in Hsearch.
  destruct (forEach_searchVisitor_dict _ _ _ Hsearch) as (_ & Htr & _).
  exact (Htr d recs Hd).
Qed.

(** X14.  A run neither adds nor removes a dictionary entry, and it leaves
    every entry that no shown node names as it was. *)
Theorem X14_dictionary_frame (tree : list CrudSchema) (dict dict' : obj)
    (all : AllSchemas) (tasks : list Task) :
  useCrudSchemas t tree dict = Ok (all, tasks, dict') →
  (∀ d, is_Some (dict' !! d) ↔ is_Some (dict !! d))
  ∧ (∀ d, (∀ n, In n (preorder tree) → names d n = false) →
          dict' !! d = dict !! d).
Proof.
  intros Hrun. destruct (useCrudSchemas_inv _ _ _ _ _ _ Hrun) as (Hsearch & _).
  apply filterSearchSchema_run in Hsearch.
  destruct (forEach_searchVisitor_dict _ _ _ Hsearch) as (Hframe & _ & Hdom).
  split; [exact Hdom|]. intros d Hall. apply (Hframe d).
  apply Forall_forall. intros n Hn. apply Hall. by apply list_elem_of_In.
Qed.

(** X15.  Wherever in the tree a shown node has a truthy [dictName] whose
    dictionary entry is not an array (absent, for one), the engine raises a
    [TypeError] and returns nothing. *)
Theorem X15_entry_not_an_array_raises (tree : list CrudSchema) (dict : obj)
    (n : CrudSchema) :
  In n (preorder tree) →
  search_show n = true →
  truthy (get (searchSchemaItem n) "dictName") = true →
  (∀ a, index_by dict (get (searchSchemaItem n) "dictName") ≠ VArr a) →
  useCrudSchemas t tree dict = Err TypeError.
Proof.
  intros Hin Hshow Htruthy Hentry.
  destruct (useCrudSchemas t tree dict) as [[[all tasks] dict']|[]] eqn:Hrun;
    [|reflexivity].
  destruct (useCrudSchemas_inv _ _ _ _ _ _ Hrun) as (Hsearch & _).
  apply filterSearchSchema_run in Hsearch.
  pose proof (forEach_searchVisitor_entries _ _ _ Hsearch) as Hall.
  rewrite Forall_forall in Hall.
  destruct (Hall n (proj2 (list_elem_of_In _ _) Hin) Hshow Htruthy) as [a Ha].
  destruct (Hentry a Ha).
Qed.

(** X10.  No record of [searchSchema] has a [show] or a [dictName] key, and
    no record of [formSchema] or [detailSchema] has a [show] key. *)
Theorem X10_internal_keys_stripped (tree : list CrudSchema) (dict dict' : obj)
    (all : AllSchemas) (tasks : list Task) :
  useCrudSchemas t tree dict = Ok (all, tasks, dict') →
  Forall (fun r => r !! "show" = None ∧ r !! "dictName" = None)
    (searchSchema all)
  ∧ Forall (fun r => r !! "show" = None) (formSchema all)
  ∧ Forall (fun r => r !! "show" = None) (detailSchema all).
Proof.
  intros Hrun.
  destruct (useCrudSchemas_inv _ _ _ _ _ _ Hrun) as (Hsearch & _ & -> & ->).
  split; [|split].
  - pose proof (filterSearchSchema_preorder _ _ _ _ _ _ Hsearch) as H.
    apply Forall_forall. intros r Hr.
    apply list_elem_of_lookup in Hr as [i Hi].
    destruct (Forall2_lookup_r _ _ _ _ _ H Hi) as (n & _ & cp & ->).
    rewrite !lookup_insert_ne by done.
    rewrite lookup_delete_ne by done. rewrite !lookup_delete_eq. auto.
  - apply Forall_forall. intros r Hr.
    apply list_elem_of_In, in_map_iff in Hr as (n & <- & _).
    apply lookup_delete_eq.
  - apply Forall_forall. intros r Hr.
    apply list_elem_of_In, in_map_iff in Hr as (n & <- & _).
    apply lookup_delete_eq.
Qed.

(** X11.  A search or form record has the [component] of its block whenever
    the block has that key, be the value falsy; the default, ["input"] or
    ["Input"], is only there when the block has no such key. *)
Theorem X11_component_defaults (tree : list CrudSchema) (dict dict' : obj)
    (all : AllSchemas) (tasks : list Task) :
  useCrudSchemas t tree dict = Ok (all, tasks, dict') →
  Forall2 (fun n r =>
             get r "component" = component_of (get (props n) "search") "input")
    (List.filter search_show (preorder tree)) (searchSchema all)
  ∧ Forall2 (fun n r =>
               get r "component" = component_of (get (props n) "form") "Input")
      (List.filter form_show (preorder tree)) (formSchema all).
Proof.
  intros Hrun.
  destruct (useCrudSchemas_inv _ _ _ _ _ _ Hrun) as (Hsearch & _ & -> & _).
  split.
  - eapply Forall2_impl; [exact (filterSearchSchema_preorder _ _ _ _ _ _ Hsearch)|].
    intros n r [cp ->]. unfold component_of, searchSchemaItem.
    generalize (get (props n) "label") (get (props n) "field")
      (get (props n) "search"). intros lbl fld search. unfold get at 1.
    rewrite lookup_insert_ne by done. rewrite !lookup_delete_ne by done.
    rewrite !lookup_insert_ne by done. rewrite lookup_union.
    rewrite lookup_insert_eq.
    destruct (spread search !! "component") as [v|] eqn:Hv;
      simpl; [reflexivity|].
    unfold or_else, opt_prop.
    destruct search; try reflexivity.
    simpl in Hv. unfold get. rewrite Hv. reflexivity.
  - apply Forall2_map_r_eq. intros n. unfold component_of, formSchemaItem.
    generalize (get (props n) "label") (get (props n) "field")
      (get (props n) "form"). intros lbl fld form. unfold get at 1.
    rewrite lookup_delete_ne by done. rewrite !lookup_insert_ne by done.
    rewrite lookup_union, lookup_singleton_eq.
    destruct (spread form !! "component") as [v|] eqn:Hv;
      simpl; [reflexivity|].
    unfold or_else, and_then, opt_prop.
    destruct form as [| |b|z|x|a|o|f]; try reflexivity.
    + by destruct b.
    + simpl. destruct (z =? 0) eqn:E; simpl; rewrite ?E; reflexivity.
    + simpl. destruct (String.eqb x "") eqn:E; simpl; rewrite ?E; reflexivity.
    + simpl in Hv. unfold get. rewrite Hv. reflexivity.
Qed.

(** X16.  The engine returns its aggregate whenever every shown node with a
    truthy [dictName] finds a list of records under that name and has a
    [componentProps] object to write to. *)
Theorem X16_engine_returns_when_entries_are_lists (tree : list CrudSchema)
    (dict : obj) :
  Forall (fun n => dict_ready dict n = true) (preorder tree) →
  ∃ all tasks dict', useCrudSchemas t tree dict = Ok (all, tasks, dict').
Proof. apply useCrudSchemas_total. Qed.

End SearchRuns.

(** ** How the tasks compose *)

Section TaskAlgebra.

Variable t : value → value.
Variable b : bool.

Lemma run_task_effect (store : list obj) (tk : Task) (o : Outcome) :
  run_task t b store tk o
  = match effect t b store tk o with
    | Some (j, opts) => write_options store j opts
    | None => store
    end.
Proof.
  destruct o as [|res]; [reflexivity|]. unfold run_task, patch, effect.
  destruct (truthy res); [|reflexivity].
  destruct (store !! scheduler tk) as [item|]; [|reflexivity].
  destruct (findIndex b store _ =? -1); [reflexivity|].
  destruct (store !! Z.to_nat _) as [target|] eqn:Ht; [|reflexivity].
  destruct (prop res "data") as [data|]; [|reflexivity]. cbn [rbind].
  destruct (prop (get item "componentProps") "optionsAlias") as [alias|];
    [|reflexivity].
  cbn [rbind]. destruct (filterOptions t data _) as [opts|]; [|reflexivity].
  cbn [rbind].
  destruct (get target "componentProps") as [| | | | | |cp|] eqn:Ecp;
    try reflexivity.
  cbn [set_prop rbind is_obj]. unfold write_options. by rewrite Ht, Ecp.
Qed.

Lemma write_options_related (R : obj → obj → Prop) (store : list obj)
    (j : nat) (opts : value) :
  (∀ r, R r r) →
  (∀ target cp, get target "componentProps" = VObj cp →
     R target (<["componentProps" := VObj (<["options" := opts]> cp)]> target)) →
  Forall2 R store (write_options store j opts).
Proof.
  intros Hrefl Hstep. unfold write_options.
  assert (Forall2 R store store) as Hdiag
    by (apply Forall_Forall2_diag, Forall_forall; auto).
  destruct (store !! j) as [target|] eqn:Ht; [|exact Hdiag].
  destruct (get target "componentProps") as [| | | | | |cp|] eqn:Ecp;
    try exact Hdiag.
  rewrite <- (list_insert_id store j target Ht) at 1.
  apply Forall2_insert; [exact Hdiag | by apply Hstep].
Qed.

Lemma get_insert_eq (o : obj) (k : string) (v : value) :
  get (<[k := v]> o) k = v.
Proof. unfold get. by rewrite lookup_insert_eq. Qed.

Lemma get_insert_ne (o : obj) (k k' : string) (v : value) :
  k ≠ k' → get (<[k := v]> o) k' = get o k'.
Proof. intros H. unfold get. by rewrite lookup_insert_ne. Qed.

Lemma write_options_view (store : list obj) (j : nat) (opts : value) :
  Forall2 same_view store (write_options store j opts).
Proof.
  apply write_options_related.
  - intros r. repeat split.
  - intros target cp Hcp. unfold same_view.
    rewrite Hcp, get_insert_eq, get_insert_ne by done. simpl.
    by rewrite get_insert_ne.
Qed.

Lemma write_options_apart (store : list obj) (j : nat) (opts : value) :
  Forall2 options_apart store (write_options store j opts).
Proof.
  apply write_options_related.
  - intros r. split; auto.
  - intros target cp Hcp. split; [apply delete_insert_eq|].
    intros key Hkey. rewrite Hcp, get_insert_eq. simpl.
    by apply get_insert_ne.
Qed.

Lemma native_findIndex_related {A B : Type} (f : A → bool) (g : B → bool)
    (l : list A) (k : list B) (i : Z) :
  Forall2 (fun x y => f x = g y) l k →
  native_findIndex g k i = native_findIndex f l i.
Proof.
  intros H. revert i. induction H as [|x y l k Hxy _ IH]; intros i; simpl.
  - reflexivity.
  - rewrite Hxy. destruct (g y); [reflexivity | apply IH].
Qed.

Lemma effect_view (s s' : list obj) (tk : Task) (o : Outcome) :
  Forall2 same_view s s' →
  effect t b s' tk o = effect t b s tk o.
Proof.
  intros Hview. destruct o as [|res]; [reflexivity|]. unfold effect.
  destruct (truthy res); [|reflexivity].
  destruct (s !! scheduler tk) as [item|] eqn:Hitem.
  2:{ destruct (s' !! scheduler tk) as [item'|] eqn:Hitem'; [|reflexivity].
      destruct (Forall2_lookup_r _ _ _ _ _ Hview Hitem') as (x & Hx & _).
      congruence. }
  destruct (Forall2_lookup_l _ _ _ _ _ Hview Hitem) as (item' & -> & Hf & _ & Ha).
  rewrite Hf, Ha, !findIndex_native.
  rewrite (native_findIndex_related
             (fun v => strict_eq (get v "field") (get item "field"))
             (fun v => strict_eq (get v "field") (get item "field")) s s').
  2:{ eapply Forall2_impl; [exact Hview|]. intros x y (Hxy & _). simpl.
      by rewrite Hxy. }
  destruct (native_findIndex _ s 0 =? -1); [reflexivity|].
  destruct (s !! Z.to_nat _) as [target|] eqn:Ht.
  2:{ destruct (s' !! Z.to_nat _) as [target'|] eqn:Ht'; [|reflexivity].
      destruct (Forall2_lookup_r _ _ _ _ _ Hview Ht') as (x & Hx & _).
      congruence. }
  destruct (Forall2_lookup_l _ _ _ _ _ Hview Ht) as (target' & -> & _ & Hobj & _).
  rewrite Hobj. reflexivity.
Qed.

(** Where and what a task writes is the same whatever tasks settled before. *)
Lemma effect_after (s : list obj) (tk tk' : Task) (o o' : Outcome) :
  effect t b (run_task t b s tk' o') tk o = effect t b s tk o.
Proof.
  apply effect_view. rewrite run_task_effect.
  destruct (effect t b s tk' o') as [[j opts]|].
  - apply write_options_view.
  - apply Forall_Forall2_diag, Forall_forall. intros r _. repeat split.
Qed.

Lemma effect_some (s : list obj) (tk : Task) (o : Outcome) (j : nat)
    (opts : value) :
  effect t b s tk o = Some (j, opts) →
  ∃ item target,
    s !! scheduler tk = Some item
    ∧ j = Z.to_nat (native_findIndex
                      (fun v => strict_eq (get v "field") (get item "field")) s 0)
    ∧ s !! j = Some target
    ∧ strict_eq (get target "field") (get item "field") = true.
Proof.
  destruct o as [|res]; [intros [=]|]. unfold effect.
  destruct (truthy res); [|intros [=]].
  destruct (s !! scheduler tk) as [item|]; [|intros [=]].
  rewrite findIndex_native.
  destruct (native_findIndex_spec
              (fun v => strict_eq (get v "field") (get item "field")) s 0)
    as [[E _]|(k & x & E & Hk & Hx & _)]; [rewrite E; simpl; intros [=]|].
  rewrite Z.add_0_l in E. rewrite E.
  destruct (Z.of_nat k =? -1); [intros [=]|].
  rewrite Nat2Z.id, Hk.
  destruct (rbind _ _) as [opts'|]; [|intros [=]].
  destruct (is_obj (get x "componentProps")); [|intros [=]].
  intros [= <- <-]. exists item, x. rewrite E, Nat2Z.id. auto.
Qed.

Lemma strict_eq_eq (x y : value) : strict_eq x y = true → x = y.
Proof.
  destruct x, y; simpl; try discriminate; intros H; try reflexivity.
  - by apply Bool.eqb_prop in H as ->.
  - by apply Z.eqb_eq in H as ->.
  - by apply String.eqb_eq in H as ->.
Qed.



Lemma write_options_twice (s : list obj) (j : nat) (o1 o2 : value) :
  write_options (write_options s j o1) j o2 = write_options s j o2.
Proof.
  unfold write_options. destruct (s !! j) as [target|] eqn:Ht;
    rewrite ?Ht; [|reflexivity].
  destruct (get target "componentProps") as [| | | | | |cp|] eqn:Ecp;
    rewrite ?Ht, ?Ecp; try reflexivity.
  rewrite list_lookup_insert_eq by (eapply lookup_lt_Some; eauto).
  rewrite get_insert_eq.
  rewrite list_insert_insert_eq, !insert_insert_eq. reflexivity.
Qed.

Lemma effect_typed (s : list obj) (tk : Task) (item : obj) (res : value)
    (recs : list obj) :
  s !! scheduler tk = Some item →
  Forall (fun r => record_typed r = true) s →
  truthy res = true →
  opt_prop res "data" = VArr (VObj <$> recs) →
  ∃ j opts, effect t b s tk (Resolves res) = Some (j, opts).
Proof.
  intros Hitem Hall Hres Hdata. rewrite Forall_forall in Hall.
  assert (record_typed item = true) as Hityped
    by (apply Hall, list_elem_of_lookup; eauto).
  apply andb_prop in Hityped as [Hicp Hprim].
  destruct (findIndex_found b
              (fun v => strict_eq (get v "field") (get item "field"))
              s (scheduler tk) item Hitem (strict_eq_refl _ Hprim))
    as (j & target & E & Hj & _).
  assert (record_typed target = true) as Httyped
    by (apply Hall, list_elem_of_lookup; eauto).
  apply andb_prop in Httyped as [Htcp _].
  unfold effect. rewrite Hres, Hitem, E.
  replace (Z.of_nat j =? -1) with false by (symmetry; apply Z.eqb_neq; lia).
  rewrite Nat2Z.id, Hj, (prop_truthy _ _ Hres), Hdata. cbn [rbind].
  destruct (get item "componentProps") as [| | | | | |icp|]; try discriminate.
  cbn [prop rbind]. rewrite filterOptions_records, Htcp. eauto.
Qed.

(** X17.  Whatever its outcome, a task keeps the length and the order of
    [searchSchema] and writes nothing of any record but
    [componentProps.options]. *)
Theorem X17_task_writes_options_only (store : list obj) (tk : Task) (o : Outcome) :
  Forall2 options_apart store (run_task t b store tk o).
Proof.
  rewrite run_task_effect. destruct (effect t b store tk o) as [[j opts]|].
  - apply write_options_apart.
  - apply Forall_Forall2_diag, Forall_forall. intros r _. split; auto.
Qed.


(** X19.  When two tasks are scheduled by records of one field, a later
    resolution with a list of records overwrites what the earlier task left:
    the list is as if only the later task had settled. *)
Theorem X19_later_resolution_wins (store : list obj) (tk1 tk2 : Task)
    (item1 item2 : obj) (o1 : Outcome) (res : value) (recs : list obj) :
  store !! scheduler tk1 = Some item1 →
  store !! scheduler tk2 = Some item2 →
  strict_eq (get item1 "field") (get item2 "field") = true →
  Forall (fun r => record_typed r = true) store →
  truthy res = true →
  opt_prop res "data" = VArr (VObj <$> recs) →
  run_task t b (run_task t b store tk1 o1) tk2 (Resolves res)
  = run_task t b store tk2 (Resolves res).
Proof.
  intros H1 H2 Heq Hall Hres Hdata.
  rewrite (run_task_effect (run_task t b store tk1 o1)), effect_after.
  rewrite !run_task_effect.
  destruct (effect_typed _ _ _ _ _ H2 Hall Hres Hdata) as (j2 & opts2 & E2).
  rewrite E2.
  destruct (effect t b store tk1 o1) as [[j1 opts1]|] eqn:E1; [|reflexivity].
  destruct (effect_some _ _ _ _ _ E1) as (i1 & t1 & Hi1 & Hj1 & _).
  destruct (effect_some _ _ _ _ _ E2) as (i2 & t2 & Hi2 & Hj2 & _).
  assert (i1 = item1) as -> by congruence.
  assert (i2 = item2) as -> by congruence.
  apply strict_eq_eq in Heq. rewrite Heq in Hj1.
  assert (j1 = j2) as -> by congruence.
  apply write_options_twice.
Qed.

End TaskAlgebra.

(** ** The shape of what [toAnyString] returns *)

Section AnyStringShape.

Lemma length_app_string (a b : string) :
  String.length (a ++ b) = (String.length a + String.length b)%nat.
Proof.
  induction a as [|c a IH]; [reflexivity|].
  change (String c a ++ b) with (String c (a ++ b)). simpl. by rewrite IH.
Qed.

Lemma count_of_app (p : ascii → bool) (a b : string) :
  Str.count_of p (a ++ b) = (Str.count_of p a + Str.count_of p b)%nat.
Proof.
  induction a as [|c a IH]; [reflexivity|].
  change (String c a ++ b) with (String c (a ++ b)). simpl. rewrite IH. lia.
Qed.

Lemma toString_small (v : Z) :
  0 ≤ v < 16 →
  Str.all_of is_digit (AnyString.toString v) = true
  ∧ Str.count_of is_hyphen (AnyString.toString v) = 0%nat
  ∧ (1 ≤ String.length (AnyString.toString v) ≤ 2)%nat.
Proof.
  intros H.
  assert (v = 0 ∨ v = 1 ∨ v = 2 ∨ v = 3 ∨ v = 4 ∨ v = 5 ∨ v = 6 ∨ v = 7
          ∨ v = 8 ∨ v = 9 ∨ v = 10 ∨ v = 11 ∨ v = 12 ∨ v = 13 ∨ v = 14
          ∨ v = 15) as Hcases by lia.
  repeat (destruct Hcases as [->|Hcases]; [vm_compute; repeat split; lia|]).
  subst v. vm_compute. repeat split; lia.
Qed.

Lemma replacer_small (random : nat → Q) (c : ascii) (k : nat) :
  (0 <= random k)%Q → (random k < 1)%Q →
  is_placeholder c = true →
  Str.all_of is_digit (AnyString.replacer random c k) = true
  ∧ Str.count_of is_hyphen (AnyString.replacer random c k) = 0%nat
  ∧ (1 ≤ String.length (AnyString.replacer random c k) ≤ 2)%nat.
Proof.
  intros Hlo Hhi Hc.
  destruct (replacer_values random k Hlo Hhi) as (r & Hr & Hx & Hy & Hv).
  unfold is_placeholder in Hc. apply orb_prop in Hc as [Hc|Hc];
    apply Ascii.eqb_eq in Hc; subst c.
  - rewrite Hx. by apply toString_small.
  - rewrite Hy. apply toString_small. lia.
Qed.

Lemma all_of_weaken (p q : ascii → bool) (s : string) :
  (∀ c, p c = true → q c = true) →
  Str.all_of p s = true → Str.all_of q s = true.
Proof.
  intros Hpq. induction s as [|c s IH]; [reflexivity|]. simpl. intros H.
  apply andb_prop in H as [Hc Hs]. by rewrite (Hpq c Hc), (IH Hs).
Qed.

Lemma replace_xy_shape (random : nat → Q) (s : string) (k : nat) :
  (∀ i, (0 <= random i)%Q ∧ (random i < 1)%Q) →
  Str.all_of (fun c => printable c || is_placeholder c)%bool s = true →
  Str.all_of printable (AnyString.replace_xy random s k) = true
  ∧ Str.count_of is_hyphen (AnyString.replace_xy random s k)
    = Str.count_of is_hyphen s
  ∧ (String.length s ≤ String.length (AnyString.replace_xy random s k)
     ≤ String.length s + Str.count_of is_placeholder s)%nat.
Proof.
  intros Hrange. revert k. induction s as [|c s IH]; intros k Hs.
  - repeat split; simpl; lia.
  - cbn [Str.all_of] in Hs. apply andb_prop in Hs as [Hc Hs].
    cbn [AnyString.replace_xy]. fold (is_placeholder c).
    destruct (is_placeholder c) eqn:Hp.
    + destruct (Hrange k) as [Hlo Hhi].
      destruct (replacer_small random c k Hlo Hhi Hp) as (Hd & Hh & Hl).
      destruct (IH (Datatypes.S k) Hs) as (IH1 & IH2 & IH3).
      rewrite all_of_app, count_of_app, length_app_string, IH1, IH2, Hh.
      rewrite (all_of_weaken is_digit printable _
                 (fun x Hx => proj2 (orb_true_iff _ _) (or_introl Hx)) Hd).
      cbn [Str.count_of String.length]. rewrite Hp.
      assert (is_hyphen c = false) as ->.
      { unfold is_placeholder in Hp. unfold is_hyphen.
        apply orb_prop in Hp as [Hp|Hp]; apply Ascii.eqb_eq in Hp; by subst c. }
      repeat split; simpl; lia.
    + destruct (IH k Hs) as (IH1 & IH2 & IH3).
      rewrite orb_false_r in Hc.
      cbn [Str.all_of Str.count_of String.length]. rewrite Hc, IH1, IH2, Hp.
      repeat split; simpl; lia.
Qed.

Lemma replace_xy_draws (random random' : nat → Q) (s : string) (k : nat) :
  (∀ i, (k ≤ i < k + Str.count_of is_placeholder s)%nat →
        random i = random' i) →
  AnyString.replace_xy random s k = AnyString.replace_xy random' s k.
Proof.
  revert k. induction s as [|c s IH]; intros k Hsame; [reflexivity|].
  cbn [AnyString.replace_xy]. fold (is_placeholder c).
  cbn [Str.count_of] in Hsame. destruct (is_placeholder c).
  - unfold AnyString.replacer. rewrite (Hsame k) by lia.
    rewrite (IH (Datatypes.S k)); [reflexivity|]. intros i Hi. apply Hsame. lia.
  - f_equal. apply IH. intros i Hi. apply Hsame. lia.
Qed.

End AnyStringShape.

(** ** Properties of the helpers and of the engine *)


(** X2.  [findIndex] returns [-1] exactly when no element satisfies the
    callback; any other result is the position of the first element that
    does, so the result lies between [-1] and the length of the array. *)
Theorem X2_findIndex_first_or_minus_one {A : Type} (b : bool) (ary : list A)
    (fn : A → bool) :
  (findIndex b ary fn = -1 ↔ Forall (fun x => fn x = false) ary)
  ∧ (∀ j, findIndex b ary fn = Z.of_nat j → ∃ x, first_match fn ary j x)
  ∧ -1 ≤ findIndex b ary fn < Z.of_nat (length ary).
Proof.
  rewrite findIndex_native.
  destruct (native_findIndex_spec fn ary 0)
    as [[E Hall]|(j & x & E & Hfirst)]; rewrite E.
  - split; [tauto|]. split; [intros j Hj; lia | lia].
  - pose proof Hfirst as (Hj & Hx & _).
    apply lookup_lt_Some in Hj as Hlt.
    split; [|split; [|lia]].
    + split; [lia|]. intros Hall. rewrite Forall_forall in Hall.
      assert (fn x = false) by (apply Hall, list_elem_of_lookup; eauto).
      congruence.
    + intros k Hk. assert (k = j) as -> by lia. eauto.
Qed.

Lemma X3_witness :
  Str.camel_text "fooBarBaz" = true
  ∧ Str.underlineToHump (Str.humpToUnderline "fooBarBaz") = "fooBarBaz".
Proof. split; [reflexivity|]. apply X3_hump_round_trip. reflexivity. Defined.

Lemma X4_witness :
  Str.kebab_text "foo-bar-baz" = true
  ∧ Str.humpToUnderline (Str.underlineToHump "foo-bar-baz") = "foo-bar-baz".
Proof. split; [reflexivity|]. apply X4_underline_round_trip. reflexivity. Defined.

(** X6.  [trim] removes the white space around a text that neither begins
    nor ends with white space, and nothing else; a text of white space only
    becomes empty. *)
Theorem X6_trim_strips_both_ends (a core b : string) :
  Str.all_of Str.is_space a = true →
  Str.all_of Str.is_space b = true →
  Str.tight core = true →
  Str.trim (a ++ core ++ b) = core.
Proof. apply trim_strips. Qed.

Lemma X6_witness :
  Str.all_of Str.is_space "  " = true
  ∧ Str.tight "a  b" = true
  ∧ Str.trim ("  " ++ "a  b" ++ "  ") = "a  b".
Proof.
  split; [reflexivity|]. split; [reflexivity|].
  apply X6_trim_strips_both_ends; reflexivity.
Defined.

(** X7.  What [trim] returns neither begins nor ends with white space, and
    trimming it again changes nothing. *)
Theorem X7_trim_tight_and_idempotent (s : string) :
  Str.tight (Str.trim s) = true ∧ Str.trim (Str.trim s) = Str.trim s.
Proof. split; [apply trim_tight | apply trim_idempotent]. Qed.

(** X8.  When every draw lies in [[0,1)], [toAnyString] returns decimal
    digits and hyphens only, with the four hyphens of the template, in 29 to
    53 units. *)
Theorem X8_toAnyString_digits_and_hyphens (random : nat → Q) :
  (∀ i, (0 <= random i)%Q ∧ (random i < 1)%Q) →
  Str.all_of printable (AnyString.toAnyString random) = true
  ∧ Str.count_of is_hyphen (AnyString.toAnyString random) = 4%nat
  ∧ (29 ≤ String.length (AnyString.toAnyString random) ≤ 53)%nat.
Proof.
  intros Hrange.
  destruct (replace_xy_shape random AnyString.template 0 Hrange eq_refl)
    as (H1 & H2 & H3).
  unfold AnyString.toAnyString.
  change (String.length AnyString.template) with 29%nat in H3.
  change (Str.count_of is_placeholder AnyString.template) with 24%nat in H3.
  split; [exact H1|]. split; [exact H2 | lia].
Qed.

Lemma X8_witness :
  Str.all_of printable (AnyString.toAnyString Samples.draws_625) = true
  ∧ Str.count_of is_hyphen (AnyString.toAnyString Samples.draws_625) = 4%nat
  ∧ (29 ≤ String.length (AnyString.toAnyString Samples.draws_625) ≤ 53)%nat.
Proof.
  apply X8_toAnyString_digits_and_hyphens. intros i.
  split; [discriminate | reflexivity].
Defined.

(** X9.  [toAnyString] calls [Math.random] once for each of the 24
    placeholders of the template: its result is decided by the first 24
    draws. *)
Theorem X9_toAnyString_uses_24_draws (random random' : nat → Q) :
  (∀ i, (i < 24)%nat → random i = random' i) →
  AnyString.toAnyString random = AnyString.toAnyString random'.
Proof.
  intros Hsame. apply replace_xy_draws. intros i Hi. apply Hsame.
  change (Str.count_of is_placeholder AnyString.template) with 24%nat in Hi. lia.
Qed.

Lemma X9_witness :
  AnyString.toAnyString Samples.draws_625
  = AnyString.toAnyString
      (fun i => if (i <? 24)%nat then (5 # 8)%Q else (1 # 8)%Q).
Proof.
  apply X9_toAnyString_uses_24_draws. intros i Hi.
  apply Nat.ltb_lt in Hi. by rewrite Hi.
Defined.

(** The engine and task properties at [Samples.sample_tree]. *)

Lemma X10_witness :
  Forall (fun r => r !! "show" = None ∧ r !! "dictName" = None)
    (searchSchema Samples.sample_all)
  ∧ Forall (fun r => r !! "show" = None) (formSchema Samples.sample_all)
  ∧ Forall (fun r => r !! "show" = None) (detailSchema Samples.sample_all).
Proof.
  exact (X10_internal_keys_stripped Samples.upper_t Samples.sample_tree
           Samples.sample_dict Samples.sample_dict_after Samples.sample_all
           Samples.sample_tasks sample_run_ok).
Defined.

Lemma X11_witness :
  Forall2 (fun n r =>
             get r "component" = component_of (get (props n) "search") "input")
    (List.filter search_show (preorder Samples.sample_tree))
    (searchSchema Samples.sample_all)
  ∧ Forall2 (fun n r =>
               get r "component" = component_of (get (props n) "form") "Input")
      (List.filter form_show (preorder Samples.sample_tree))
      (formSchema Samples.sample_all).
Proof.
  exact (X11_component_defaults Samples.upper_t Samples.sample_tree
           Samples.sample_dict Samples.sample_dict_after Samples.sample_all
           Samples.sample_tasks sample_run_ok).
Defined.

Lemma X12_witness :
  Forall2 (fun n tk =>
             ∃ r, searchSchema Samples.sample_all !! scheduler tk = Some r
                  ∧ search_record_of n r)
    (List.filter schedules (preorder Samples.sample_tree)) Samples.sample_tasks.
Proof.
  exact (X12_tasks_of_the_run Samples.upper_t Samples.sample_tree
           Samples.sample_dict Samples.sample_dict_after Samples.sample_all
           Samples.sample_tasks sample_run_ok).
Defined.

Lemma X13_witness :
  let recs := [Samples.object [("value", VNum 1); ("label", VStr "on")];
               Samples.object [("value", VNum 0); ("label", VStr "off")]] in
  Samples.sample_dict !! "status" = Some (VArr (VObj <$> recs))
  ∧ Samples.sample_dict_after !! "status"
    = Some (VArr (VObj <$>
              Nat.iter
                (length (List.filter (names "status")
                           (preorder Samples.sample_tree)))
                (map (translate_record Samples.upper_t VUndef)) recs)).
Proof.
  intros recs. split; [reflexivity|].
  apply (X13_dictionary_translated_per_lookup Samples.upper_t
           Samples.sample_tree Samples.sample_dict Samples.sample_dict_after
           Samples.sample_all Samples.sample_tasks "status" recs sample_run_ok).
  reflexivity.
Defined.

Lemma X14_witness :
  (∀ d, is_Some (Samples.sample_dict_after !! d)
        ↔ is_Some (Samples.sample_dict !! d))
  ∧ (∀ d, (∀ n, In n (preorder Samples.sample_tree) → names d n = false) →
          Samples.sample_dict_after !! d = Samples.sample_dict !! d).
Proof.
  exact (X14_dictionary_frame Samples.upper_t Samples.sample_tree
           Samples.sample_dict Samples.sample_dict_after Samples.sample_all
           Samples.sample_tasks sample_run_ok).
Defined.

Lemma X15_witness :
  In Samples.status_node (preorder Samples.sample_tree)
  ∧ useCrudSchemas Samples.upper_t Samples.sample_tree ∅ = Err TypeError.
Proof.
  assert (In Samples.status_node (preorder Samples.sample_tree)) as Hin
    by (right; right; left; reflexivity).
  split; [exact Hin|].
  apply (X15_entry_not_an_array_raises Samples.upper_t Samples.sample_tree ∅
           Samples.status_node Hin); [reflexivity | reflexivity |].
  intros a H. discriminate H.
Defined.

Lemma X16_witness :
  ∃ all tasks dict',
    useCrudSchemas Samples.upper_t Samples.sample_tree Samples.sample_dict
    = Ok (all, tasks, dict').
Proof.
  apply X16_engine_returns_when_entries_are_lists.
  repeat constructor.
Defined.


Lemma X19_witness :
  let store := searchSchema Samples.sample_all in
  let owner := {| scheduler := 2 |} in
  run_task Samples.upper_t true
    (run_task Samples.upper_t true store owner Rejects)
    owner (Resolves Samples.owner_response)
  = run_task Samples.upper_t true store owner (Resolves Samples.owner_response)
  ∧ run_task Samples.upper_t true
      (run_task Samples.upper_t true store owner
         (Resolves MoreSamples.empty_response))
      owner (Resolves Samples.owner_response)
    = run_task Samples.upper_t true store owner
        (Resolves Samples.owner_response).
Proof.
  intros store owner.
  split;
    apply (X19_later_resolution_wins Samples.upper_t true store owner owner
             Samples.owner_record Samples.owner_record _
             Samples.owner_response Samples.owner_rows);
    try reflexivity; vm_compute; repeat constructor.
Defined.
